(** * Van Bill Manager: template store and offline asset cache

    A shallow embedding of the template persistence code of the three
    application versions ([src/App.tsx] and its two later revisions) and of
    the service worker that caches the application shell, together with the
    properties the specification states about them.

    Event handlers are functions from the state they read (the React state
    of the component, the browser, the answers of the user to the dialogs)
    to the state they leave.  The listeners of the service worker run in a
    small promise monad over the cache storage and the network.  Browser
    functions the code calls ([String.prototype.trim], [JSON.stringify],
    [JSON.parse], the Cache API) are written out as their standards
    describe them. *)

From Stdlib Require Import NArith ZArith Ascii String Lia.
From stdpp Require Import base decidable option list gmap.

Set Warnings "-register-all".

Local Open Scope N_scope.

(** ** ECMAScript strings

    A string value is a finite sequence of UTF-16 code units.  Literals of
    the source are ASCII and are written through [lit]. *)

Abbreviation jsstring := (list N).

Definition lit (s : string) : jsstring :=
  N_of_ascii <$> list_ascii_of_string s.

(** [WhiteSpace] and [LineTerminator] code points, the characters removed by
    [String.prototype.trim]. *)
Definition isWhiteSpace (c : N) : bool :=
  (c =? 0x09) || (c =? 0x0B) || (c =? 0x0C) || (c =? 0x20) || (c =? 0xA0)
  || (c =? 0x1680) || ((0x2000 <=? c) && (c <=? 0x200A))
  || (c =? 0x202F) || (c =? 0x205F) || (c =? 0x3000) || (c =? 0xFEFF).

Definition isLineTerminator (c : N) : bool :=
  (c =? 0x0A) || (c =? 0x0D) || (c =? 0x2028) || (c =? 0x2029).

Definition isTrimmed (c : N) : bool := isWhiteSpace c || isLineTerminator c.

Fixpoint trimStart (s : jsstring) : jsstring :=
  match s with
  | c :: s' => if isTrimmed c then trimStart s' else s
  | [] => []
  end.

Definition trimEnd (s : jsstring) : jsstring := rev (trimStart (rev s)).

(** [s.trim()] *)
Definition trim (s : jsstring) : jsstring := trimEnd (trimStart s).

(** [a !== b] on two strings. *)
Definition strict_ne (a b : jsstring) : bool := negb (bool_decide (a = b)).

(** [ToBoolean] of a [string | null] value: [null] and the empty string are
    falsy. *)
Definition truthy_string (o : option jsstring) : bool :=
  match o with
  | Some (_ :: _) => true
  | _ => false
  end.

(** ** Data model ([types.ts], as the three versions use it) *)

Record Template := mkTemplate { name : jsstring; vans : list jsstring }.

#[global] Instance Template_eq_dec : EqDecision Template.
Proof. solve_decision. Defined.

(** The browser facilities the template code talks to: [localStorage], the
    blocking [alert] dialogs shown so far and the lines written with
    [console.error] (oldest first). *)
Record Browser := mkBrowser {
  localStorage : gmap jsstring jsstring;
  alerts : list jsstring;
  console : list jsstring
}.

Definition alert (msg : jsstring) (b : Browser) : Browser :=
  {| localStorage := localStorage b; alerts := alerts b ++ [msg];
     console := console b |}.

Definition console_error (msg : jsstring) (b : Browser) : Browser :=
  {| localStorage := localStorage b; alerts := alerts b;
     console := console b ++ [msg] |}.

Definition setItem (k v : jsstring) (b : Browser) : Browser :=
  {| localStorage := <[k := v]> (localStorage b); alerts := alerts b;
     console := console b |}.

Definition getItem (k : jsstring) (b : Browser) : option jsstring :=
  localStorage b !! k.

(** ** JSON text, as [JSON.stringify] writes it and [JSON.parse] reads it *)

Module JSON.

(** Parsed JSON values.  A number keeps the text of its literal: no code
    modelled here computes with numbers. *)
Inductive value :=
| Null
| Bool (b : bool)
| Number (literal : jsstring)
| String (s : jsstring)
| Array (elements : list value)
| Object (members : list (jsstring * value)).

(** *** Writing: [QuoteJSONString] *)

Definition hex_digit (d : N) : N :=
  if d <? 10 then 0x30 + d else 0x61 + (d - 10).

(** [UnicodeEscape]: a backslash, [u] and four lower-case hex digits. *)
Definition unicode_escape (c : N) : jsstring :=
  [0x5C; 0x75; hex_digit ((c / 4096) mod 16); hex_digit ((c / 256) mod 16);
   hex_digit ((c / 16) mod 16); hex_digit (c mod 16)].

Definition is_leading_surrogate (c : N) : bool := (0xD800 <=? c) && (c <=? 0xDBFF).
Definition is_trailing_surrogate (c : N) : bool := (0xDC00 <=? c) && (c <=? 0xDFFF).

(** One code unit that is not part of a surrogate pair. *)
Definition quote_unit (c : N) : jsstring :=
  if c =? 0x08 then [0x5C; 0x62]
  else if c =? 0x09 then [0x5C; 0x74]
  else if c =? 0x0A then [0x5C; 0x6E]
  else if c =? 0x0C then [0x5C; 0x66]
  else if c =? 0x0D then [0x5C; 0x72]
  else if c =? 0x22 then [0x5C; 0x22]
  else if c =? 0x5C then [0x5C; 0x5C]
  else if (c <? 0x20) || is_leading_surrogate c || is_trailing_surrogate c
       then unicode_escape c
  else [c].

(** The string is read code point by code point: a leading surrogate
    followed by a trailing one is a single code point and is copied. *)
Fixpoint quote_body (s : jsstring) : jsstring :=
  match s with
  | [] => []
  | c :: s1 =>
      if is_leading_surrogate c then
        match s1 with
        | d :: s2 =>
            if is_trailing_surrogate d then c :: d :: quote_body s2
            else quote_unit c ++ quote_body s1
        | [] => quote_unit c
        end
      else quote_unit c ++ quote_body s1
  end.

Definition quote (s : jsstring) : jsstring := 0x22 :: quote_body s ++ [0x22].

(** [a,b,c]: the elements separated by commas, no white space. *)
Fixpoint join_comma (l : list jsstring) : jsstring :=
  match l with
  | [] => []
  | [x] => x
  | x :: l' => x ++ 0x2C :: join_comma l'
  end.

Definition write_array (l : list jsstring) : jsstring :=
  0x5B :: join_comma l ++ [0x5D].

(** [JSON.stringify] at the static type [Template]: the object literal of
    the source lists [name] first and [vans] second. *)
Definition stringify_template (t : Template) : jsstring :=
  0x7B :: quote (lit "name") ++ 0x3A :: quote (name t)
    ++ 0x2C :: quote (lit "vans") ++ 0x3A :: write_array (quote <$> vans t)
    ++ [0x7D].

(** [JSON.stringify(templates)] at the static type [Template[]]. *)
Definition stringify (ts : list Template) : jsstring :=
  write_array (stringify_template <$> ts).

(** *** Reading: [JSON.parse] *)

Definition is_ws (c : N) : bool :=
  (c =? 0x09) || (c =? 0x0A) || (c =? 0x0D) || (c =? 0x20).

Fixpoint skip_ws (s : jsstring) : jsstring :=
  match s with
  | c :: s' => if is_ws c then skip_ws s' else s
  | [] => []
  end.

Definition hex_value (c : N) : option N :=
  if (0x30 <=? c) && (c <=? 0x39) then Some (c - 0x30)
  else if (0x61 <=? c) && (c <=? 0x66) then Some (c - 0x61 + 10)
  else if (0x41 <=? c) && (c <=? 0x46) then Some (c - 0x41 + 10)
  else None.

Definition hex4 (a b c d : N) : option N :=
  match hex_value a, hex_value b, hex_value c, hex_value d with
  | Some a, Some b, Some c, Some d => Some (4096 * a + 256 * b + 16 * c + d)
  | _, _, _, _ => None
  end.

(** The single-character escapes. *)
Definition unescape (e : N) : option N :=
  if e =? 0x22 then Some 0x22
  else if e =? 0x5C then Some 0x5C
  else if e =? 0x2F then Some 0x2F
  else if e =? 0x62 then Some 0x08
  else if e =? 0x66 then Some 0x0C
  else if e =? 0x6E then Some 0x0A
  else if e =? 0x72 then Some 0x0D
  else if e =? 0x74 then Some 0x09
  else None.

Definition cons_fst {A B} (a : A) (r : option (list A * B)) : option (list A * B) :=
  match r with
  | Some (l, rest) => Some (a :: l, rest)
  | None => None
  end.

(** The characters of a string literal after its opening quote, up to and
    including the closing quote. *)
Fixpoint parse_chars (s : jsstring) : option (jsstring * jsstring) :=
  match s with
  | [] => None
  | c :: s1 =>
      if c =? 0x22 then Some ([], s1)
      else if c =? 0x5C then
        match s1 with
        | [] => None
        | e :: s2 =>
            if e =? 0x75 then
              match s2 with
              | h1 :: h2 :: h3 :: h4 :: s3 =>
                  match hex4 h1 h2 h3 h4 with
                  | Some u => cons_fst u (parse_chars s3)
                  | None => None
                  end
              | _ => None
              end
            else
              match unescape e with
              | Some u => cons_fst u (parse_chars s2)
              | None => None
              end
        end
      else if c <? 0x20 then None
      else cons_fst c (parse_chars s1)
  end.

Definition is_digit (c : N) : bool := (0x30 <=? c) && (c <=? 0x39).

Fixpoint span_digits (s : jsstring) : jsstring * jsstring :=
  match s with
  | c :: s' =>
      if is_digit c then let '(ds, rest) := span_digits s' in (c :: ds, rest)
      else ([], s)
  | [] => ([], [])
  end.

(** [int]: a single zero, or a non-zero digit followed by digits. *)
Definition parse_int (s : jsstring) : option (jsstring * jsstring) :=
  match s with
  | c :: s' =>
      if c =? 0x30 then Some ([c], s')
      else if is_digit c then let '(ds, rest) := span_digits s' in Some (c :: ds, rest)
      else None
  | [] => None
  end.

(** [frac]: optional, a point followed by at least one digit. *)
Definition parse_frac (s : jsstring) : option (jsstring * jsstring) :=
  match s with
  | c :: s' =>
      if c =? 0x2E then
        match span_digits s' with
        | ([], _) => None
        | (ds, rest) => Some (c :: ds, rest)
        end
      else Some ([], s)
  | [] => Some ([], [])
  end.

(** [exp]: optional, [e] or [E], an optional sign, at least one digit. *)
Definition parse_exp (s : jsstring) : option (jsstring * jsstring) :=
  match s with
  | c :: s' =>
      if (c =? 0x65) || (c =? 0x45) then
        let '(sign, s1) :=
          match s' with
          | g :: s'' => if (g =? 0x2B) || (g =? 0x2D) then ([g], s'') else ([], s')
          | [] => ([], s')
          end in
        match span_digits s1 with
        | ([], _) => None
        | (ds, rest) => Some (c :: sign ++ ds, rest)
        end
      else Some ([], s)
  | [] => Some ([], [])
  end.

Definition parse_number (s : jsstring) : option (jsstring * jsstring) :=
  let '(minus, s0) :=
    match s with
    | c :: s' => if c =? 0x2D then ([c], s') else ([], s)
    | [] => ([], s)
    end in
  match parse_int s0 with
  | None => None
  | Some (i, s1) =>
      match parse_frac s1 with
      | None => None
      | Some (f, s2) =>
          match parse_exp s2 with
          | None => None
          | Some (e, s3) => Some (minus ++ i ++ f ++ e, s3)
          end
      end
  end.

(** [expect w s]: [s] without its prefix [w]. *)
Fixpoint expect (w s : jsstring) : option jsstring :=
  match w, s with
  | [], _ => Some s
  | a :: w', c :: s' => if a =? c then expect w' s' else None
  | _ :: _, [] => None
  end.

(** A value, the elements of an array after the first bracket, and the
    members of an object after the first brace.  Every call spends one
    unit of [fuel]; [parse] below starts with one unit more than the text
    has code units, which is always enough ([parse_fuel_independent]). *)
Fixpoint parse_value (fuel : nat) (s : jsstring) : option (value * jsstring) :=
  match fuel with
  | O => None
  | S fuel =>
      match skip_ws s with
      | [] => None
      | c :: s' =>
          if c =? 0x22 then
            match parse_chars s' with
            | Some (str, rest) => Some (String str, rest)
            | None => None
            end
          else if c =? 0x5B then
            match skip_ws s' with
            | d :: s'' =>
                if d =? 0x5D then Some (Array [], s'')
                else
                  match parse_elements fuel s' with
                  | Some (vs, rest) => Some (Array vs, rest)
                  | None => None
                  end
            | [] => None
            end
          else if c =? 0x7B then
            match skip_ws s' with
            | d :: s'' =>
                if d =? 0x7D then Some (Object [], s'')
                else
                  match parse_members fuel s' with
                  | Some (ms, rest) => Some (Object ms, rest)
                  | None => None
                  end
            | [] => None
            end
          else if c =? 0x74 then
            match expect (lit "rue") s' with
            | Some rest => Some (Bool true, rest)
            | None => None
            end
          else if c =? 0x66 then
            match expect (lit "alse") s' with
            | Some rest => Some (Bool false, rest)
            | None => None
            end
          else if c =? 0x6E then
            match expect (lit "ull") s' with
            | Some rest => Some (Null, rest)
            | None => None
            end
          else
            match parse_number (c :: s') with
            | Some (n, rest) => Some (Number n, rest)
            | None => None
            end
      end
  end
with parse_elements (fuel : nat) (s : jsstring) : option (list value * jsstring) :=
  match fuel with
  | O => None
  | S fuel =>
      match parse_value fuel s with
      | None => None
      | Some (v, s1) =>
          match skip_ws s1 with
          | c :: s2 =>
              if c =? 0x5D then Some ([v], s2)
              else if c =? 0x2C then cons_fst v (parse_elements fuel s2)
              else None
          | [] => None
          end
      end
  end
with parse_members (fuel : nat) (s : jsstring)
    : option (list (jsstring * value) * jsstring) :=
  match fuel with
  | O => None
  | S fuel =>
      match skip_ws s with
      | q :: s0 =>
          if q =? 0x22 then
            match parse_chars s0 with
            | None => None
            | Some (k, s1) =>
                match skip_ws s1 with
                | colon :: s2 =>
                    if colon =? 0x3A then
                      match parse_value fuel s2 with
                      | None => None
                      | Some (v, s3) =>
                          match skip_ws s3 with
                          | c :: s4 =>
                              if c =? 0x7D then Some ([(k, v)], s4)
                              else if c =? 0x2C then
                                cons_fst (k, v) (parse_members fuel s4)
                              else None
                          | [] => None
                          end
                      end
                    else None
                | [] => None
                end
            end
          else None
      | [] => None
      end
  end.

(** [JSON.parse(text)]: one value, white space around it, nothing else.
    [None] stands for the [SyntaxError] it throws. *)
Definition parse (text : jsstring) : option value :=
  match parse_value (S (length text)) text with
  | Some (v, rest) =>
      match skip_ws rest with
      | [] => Some v
      | _ :: _ => None
      end
  | None => None
  end.

(** A run that succeeds consumes at least one code unit and succeeds again
    with any fuel above the number of code units it consumed. *)
Definition enough {A} (run : nat -> jsstring -> option (A * jsstring)) (f : nat) : Prop :=
  forall s a rest,
    run f s = Some (a, rest) ->
    (length rest < length s)%nat
    /\ forall g, (length s - length rest < g)%nat -> run g s = Some (a, rest).

(** *** Reading a parsed value at the static type [Template[]] *)

(** [o.k] on a parsed object: of members written twice the last one
    counts. *)
Fixpoint get (k : jsstring) (ms : list (jsstring * value)) : option value :=
  match ms with
  | [] => None
  | (k', v) :: ms' =>
      match get k ms' with
      | Some v' => Some v'
      | None => if bool_decide (k' = k) then Some v else None
      end
  end.

Definition as_string (v : value) : option jsstring :=
  match v with String s => Some s | _ => None end.

Definition as_strings (v : value) : option (list jsstring) :=
  match v with
  | Array vs => mapM as_string vs
  | _ => None
  end.

Definition as_template (v : value) : option Template :=
  match v with
  | Object ms =>
      match get (lit "name") ms, get (lit "vans") ms with
      | Some n, Some vs =>
          match as_string n, as_strings vs with
          | Some n, Some vs => Some (mkTemplate n vs)
          | _, _ => None
          end
      | _, _ => None
      end
  | _ => None
  end.

(** The value a template is written as and read back from. *)
Definition of_template (t : Template) : value :=
  Object [(lit "name", String (name t)); (lit "vans", Array (String <$> vans t))].

Definition as_templates (v : value) : option (list Template) :=
  match v with
  | Array vs => mapM as_template vs
  | _ => None
  end.

End JSON.

(** ** More of the string and date functions the application calls *)

Definition isDecimalDigit (c : N) : bool := (0x30 <=? c) && (c <=? 0x39).

(** The decimal digits of [n], the last one first. *)
Fixpoint decimal_rev (fuel : nat) (n : N) : jsstring :=
  match fuel with
  | O => []
  | S fuel =>
      if n <? 10 then [0x30 + n]
      else (0x30 + n mod 10) :: decimal_rev fuel (n / 10)
  end.

(** [String(n)] for an integer [n] that is not negative.  A number has no
    more decimal digits than binary ones. *)
Definition decimal (n : N) : jsstring :=
  rev (decimal_rev (S (N.to_nat (N.log2 n))) n).

(** [String(x)] for the result of a getter of [Date]: [None] is [NaN]. *)
Definition String_of (x : option N) : jsstring :=
  match x with
  | Some n => decimal n
  | None => lit "NaN"
  end.

(** [s.padStart(targetLength, padString)] *)
Definition padStart (targetLength : nat) (padString s : jsstring) : jsstring :=
  take (targetLength - length s)
       (mjoin (replicate (targetLength - length s) padString)) ++ s.

(** An index argument of [slice], brought into the string: a negative one
    counts from the end. *)
Definition relative_index (len i : Z) : Z :=
  if (i <? 0)%Z then Z.max (len + i) 0 else Z.min i len.

(** [s.slice(start, end)] *)
Definition slice (start end_ : Z) (s : jsstring) : jsstring :=
  let len := Z.of_nat (length s) in
  let from := relative_index len start in
  let to := relative_index len end_ in
  take (Z.to_nat (to - from)) (drop (Z.to_nat from) s).

(** [s.slice(start)] *)
Definition slice_from (start : Z) (s : jsstring) : jsstring :=
  slice start (Z.of_nat (length s)) s.

(** A [Date] object as the formatting code reads it: its day of the month,
    its month counted from 0, its year (not negative here) and the name
    [toLocaleDateString('en-US', { weekday: 'long' })] gives; or an invalid
    date, whose getters give [NaN]. *)
Inductive Date :=
| ValidDate (date month fullYear : N) (weekday : jsstring)
| InvalidDate.

Definition getDate (d : Date) : option N :=
  match d with ValidDate x _ _ _ => Some x | InvalidDate => None end.

Definition getMonth (d : Date) : option N :=
  match d with ValidDate _ x _ _ => Some x | InvalidDate => None end.

Definition getFullYear (d : Date) : option N :=
  match d with ValidDate _ _ x _ => Some x | InvalidDate => None end.

Definition toLocaleWeekday (d : Date) : jsstring :=
  match d with ValidDate _ _ _ w => w | InvalidDate => lit "Invalid Date" end.

(** ** The template store of the application *)

(** The message of the alert that follows a successful save. *)
Definition saved_message (n : jsstring) : jsstring :=
  lit "Template " ++ 0x22 :: n ++ 0x22 :: lit " saved!".

(** What the templates state holds after the mount effect: the type
    annotation of the state says [Template[]], but [JSON.parse] is not
    checked against it. *)
Inductive Stored :=
| Typed (ts : list Template)
| Untyped (v : JSON.value).

(** [crypto.randomUUID]: the identifiers the generator hands out, and how
    many of them were drawn so far. *)
Record Crypto := mkCrypto { uuid_at : nat -> jsstring; drawn : nat }.

Definition randomUUID (c : Crypto) : jsstring * Crypto :=
  (uuid_at c (drawn c), {| uuid_at := uuid_at c; drawn := S (drawn c) |}).

(** *** First version, [src/App.tsx] *)

Module V1.

Definition TEMPLATES_STORAGE_KEY : jsstring := lit "van_bill_manager_templates".

Record RowData := mkRow {
  id : jsstring; van : jsstring; eWaybill : jsstring; invoice : jsstring
}.

Record App := mkApp { rows : list RowData; templates : list Template }.

Definition setTemplates (ts : list Template) (app : App) : App :=
  {| rows := rows app; templates := ts |}.

(** The effect run once on mount: the stored blob, when there is a
    non-empty one, is parsed and becomes the templates state; an
    exception of [JSON.parse] is caught and logged. *)
Definition loadStoredTemplates (b : Browser) : Stored * Browser :=
  match getItem TEMPLATES_STORAGE_KEY b with
  | Some (c :: storedTemplates) =>
      match JSON.parse (c :: storedTemplates) with
      | Some v =>
          match JSON.as_templates v with
          | Some ts => (Typed ts, b)
          | None => (Untyped v, b)
          end
      | None =>
          (Typed [], console_error (lit "Failed to load templates from localStorage") b)
      end
  | _ => (Typed [], b)
  end.

(** [templateName] is the answer of [prompt]: [None] when the dialog was
    dismissed.  The right operand of [&&] is reached on a string only, the
    one [default [] templateName] then stands for. *)
Definition handleSaveTemplate (templateName : option jsstring)
    (app : App) (b : Browser) : App * Browser :=
  if truthy_string templateName
     && strict_ne (trim (default [] templateName)) []
  then
    let vans := filter (fun van => trim van <> []) (van <$> rows app) in
    if (length vans =? 0)%nat then
      (app, alert (lit "Cannot save an empty template. Please add VANs to the table.") b)
    else
      let newTemplate := {| name := trim (default [] templateName); vans := vans |} in
      let updatedTemplates :=
        filter (fun t => name t <> name newTemplate) (templates app)
          ++ [newTemplate] in
      (setTemplates updatedTemplates app,
       alert (saved_message (name newTemplate))
         (setItem TEMPLATES_STORAGE_KEY (JSON.stringify updatedTemplates) b))
  else (app, b).

(** *** The rows of the table *)

Definition setRows (rs : list RowData) (app : App) : App :=
  {| rows := rs; templates := templates app |}.

(** The columns [handleUpdateRow] can write: [keyof Omit<RowData, 'id'>]. *)
Inductive Field := f_van | f_eWaybill | f_invoice.

(** [{ ...row, [field]: value }] *)
Definition set_field (field : Field) (value : jsstring) (row : RowData) : RowData :=
  match field with
  | f_van => {| id := id row; van := value; eWaybill := eWaybill row; invoice := invoice row |}
  | f_eWaybill => {| id := id row; van := van row; eWaybill := value; invoice := invoice row |}
  | f_invoice => {| id := id row; van := van row; eWaybill := eWaybill row; invoice := value |}
  end.

Definition handleAddRow (app : App) (c : Crypto) : App * Crypto :=
  let '(i, c') := randomUUID c in
  (setRows (rows app ++ [{| id := i; van := []; eWaybill := []; invoice := [] |}]) app, c').

Definition handleRemoveRow (i : jsstring) (app : App) : App :=
  setRows (filter (fun row => id row <> i) (rows app)) app.

Definition handleUpdateRow (i : jsstring) (field : Field) (value : jsstring)
    (app : App) : App :=
  setRows ((fun row => if bool_decide (id row = i) then set_field field value row else row)
             <$> rows app) app.

Fixpoint newRows (vans : list jsstring) (c : Crypto) : list RowData * Crypto :=
  match vans with
  | [] => ([], c)
  | van :: vans' =>
      let '(id, c1) := randomUUID c in
      let '(rest, c2) := newRows vans' c1 in
      ({| id := id; van := van; eWaybill := []; invoice := [] |} :: rest, c2)
  end.

Definition findTemplate (templateName : jsstring) (ts : list Template)
    : option Template :=
  List.find (fun t => bool_decide (name t = templateName)) ts.

(** As in the later versions: the value of the select element, the answer
    to [window.confirm] if it is asked, and in the result the value of the
    select element afterwards. *)
Definition handleLoadTemplate (templateName : jsstring) (confirm : bool)
    (app : App) (c : Crypto) : App * jsstring * Crypto :=
  match templateName with
  | [] => (app, templateName, c)
  | _ :: _ =>
      if (0 <? length (rows app))%nat && negb confirm then (app, [], c)
      else
        match findTemplate templateName (templates app) with
        | Some template =>
            let '(rs, c') := newRows (vans template) c in
            (setRows rs app, [], c')
        | None => (app, [], c)
        end
  end.

(** [confirm] is the answer to [window.confirm]. *)
Definition handleClearTable (confirm : bool) (app : App) : App :=
  if confirm then setRows [] app else app.

(** [formatDate]: day, month and the last two digits of the year, then the
    name of the weekday. *)
Definition formatDate (date : Date) : jsstring :=
  let day := padStart 2 (lit "0") (String_of (getDate date)) in
  let month := padStart 2 (lit "0") (String_of (N.succ <$> getMonth date)) in
  let year := slice_from (-2) (String_of (getFullYear date)) in
  let weekday := toLocaleWeekday date in
  day ++ lit "." ++ month ++ lit "." ++ year ++ lit " " ++ weekday.

End V1.

(** *** Second version: a [vanOut] column *)

Module V2.

Definition TEMPLATES_STORAGE_KEY : jsstring := lit "van_bill_manager_templates".

Record RowData := mkRow {
  id : jsstring; van : jsstring; vanOut : jsstring;
  eWaybill : jsstring; invoice : jsstring
}.

Record App := mkApp { rows : list RowData; templates : list Template }.

Definition setTemplates (ts : list Template) (app : App) : App :=
  {| rows := rows app; templates := ts |}.

Definition setRows (rs : list RowData) (app : App) : App :=
  {| rows := rs; templates := templates app |}.

Definition handleSaveTemplate (templateName : option jsstring)
    (app : App) (b : Browser) : App * Browser :=
  if truthy_string templateName
     && strict_ne (trim (default [] templateName)) []
  then
    let vans := filter (fun van => trim van <> []) (van <$> rows app) in
    if (length vans =? 0)%nat then
      (app, alert (lit "Cannot save an empty template. Please add VANs to the table.") b)
    else
      let newTemplate := {| name := trim (default [] templateName); vans := vans |} in
      let updatedTemplates :=
        filter (fun t => name t <> name newTemplate) (templates app)
          ++ [newTemplate] in
      (setTemplates updatedTemplates app,
       alert (saved_message (name newTemplate))
         (setItem TEMPLATES_STORAGE_KEY (JSON.stringify updatedTemplates) b))
  else (app, b).

(** [template.vans.map(van => ({ id: crypto.randomUUID(), van, ... }))]:
    one call of the generator per van, in order. *)
Fixpoint newRows (vans : list jsstring) (c : Crypto) : list RowData * Crypto :=
  match vans with
  | [] => ([], c)
  | van :: vans' =>
      let '(id, c1) := randomUUID c in
      let '(rest, c2) := newRows vans' c1 in
      ({| id := id; van := van; vanOut := []; eWaybill := []; invoice := [] |}
         :: rest, c2)
  end.

(** [templates.find(t => t.name === templateName)] *)
Definition findTemplate (templateName : jsstring) (ts : list Template)
    : option Template :=
  List.find (fun t => bool_decide (name t = templateName)) ts.

(** [templateName] is the value of the select element, [confirm] the
    answer the user gives to [window.confirm] if the dialog is shown.
    The second component of the result is the value of the select element
    afterwards. *)
Definition handleLoadTemplate (templateName : jsstring) (confirm : bool)
    (app : App) (c : Crypto) : App * jsstring * Crypto :=
  match templateName with
  | [] => (app, templateName, c)
  | _ :: _ =>
      if (0 <? length (rows app))%nat && negb confirm then (app, [], c)
      else
        match findTemplate templateName (templates app) with
        | Some template =>
            let '(rs, c') := newRows (vans template) c in
            (setRows rs app, [], c')
        | None => (app, [], c)
        end
  end.

(** *** The rows of the table *)

Inductive Field := f_van | f_vanOut | f_eWaybill | f_invoice.

(** [{ ...row, [field]: value }] *)
Definition set_field (field : Field) (value : jsstring) (row : RowData) : RowData :=
  match field with
  | f_van =>
      {| id := id row; van := value; vanOut := vanOut row;
         eWaybill := eWaybill row; invoice := invoice row |}
  | f_vanOut =>
      {| id := id row; van := van row; vanOut := value;
         eWaybill := eWaybill row; invoice := invoice row |}
  | f_eWaybill =>
      {| id := id row; van := van row; vanOut := vanOut row;
         eWaybill := value; invoice := invoice row |}
  | f_invoice =>
      {| id := id row; van := van row; vanOut := vanOut row;
         eWaybill := eWaybill row; invoice := value |}
  end.

Definition handleAddRow (app : App) (c : Crypto) : App * Crypto :=
  let '(i, c') := randomUUID c in
  (setRows (rows app
              ++ [{| id := i; van := []; vanOut := []; eWaybill := []; invoice := [] |}])
           app, c').

Definition handleRemoveRow (i : jsstring) (app : App) : App :=
  setRows (filter (fun row => id row <> i) (rows app)) app.

Definition handleUpdateRow (i : jsstring) (field : Field) (value : jsstring)
    (app : App) : App :=
  setRows ((fun row => if bool_decide (id row = i) then set_field field value row else row)
             <$> rows app) app.

(** [confirm] is the answer to [window.confirm]. *)
Definition handleClearTable (confirm : bool) (app : App) : App :=
  if confirm then setRows [] app else app.

(** [/^\d{3,4}$/.test(s)] *)
Definition three_or_four_digits (s : jsstring) : bool :=
  forallb isDecimalDigit s && (3 <=? length s)%nat && (length s <=? 4)%nat.

(** [s.replace(/\./g, ':')] *)
Definition dots_to_colons (s : jsstring) : jsstring :=
  (fun c => if c =? 0x2E then 0x3A else c) <$> s.

Section Platform.

(** What the browser makes of a time written after a date:
    [new Date(text)] and, unless the date is invalid ([None]),
    [toLocaleTimeString('en-US', { hour: 'numeric', minute: '2-digit',
    hour12: true })] of it.  How [Date] reads such a text is left to the
    browser. *)
Variable clockTime : jsstring -> option jsstring.

Definition normalizeTime (input : jsstring) : jsstring :=
  match input with
  | [] => []
  | _ :: _ =>
      let clean := dots_to_colons (trim input) in
      let clean :=
        if three_or_four_digits clean then
          let len := Z.of_nat (length clean) in
          let h := slice 0 (len - 2) clean in
          let m := slice_from (len - 2) clean in
          h ++ lit ":" ++ m
        else clean in
      match clockTime (lit "1/1/2000 " ++ clean) with
      | Some formatted => formatted
      | None => input
      end
  end.

Definition handleTimeBlur (i : jsstring) (value : jsstring) (app : App) : App :=
  let formatted := normalizeTime value in
  handleUpdateRow i f_vanOut formatted app.

(** [new Date(dateStr)] *)
Variable newDate : jsstring -> Date.

Definition formatDateForDisplay (dateStr : jsstring) : jsstring :=
  match dateStr with
  | [] => []
  | _ :: _ =>
      let date := newDate dateStr in
      let day := padStart 2 (lit "0") (String_of (getDate date)) in
      let month := padStart 2 (lit "0") (String_of (N.succ <$> getMonth date)) in
      let year := slice_from (-2) (String_of (getFullYear date)) in
      let weekday := toLocaleWeekday date in
      day ++ lit "." ++ month ++ lit "." ++ year ++ lit " " ++ weekday
  end.

End Platform.

End V2.

(** *** Third version: rows are added through a form *)

Module V3.

Definition TEMPLATES_STORAGE_KEY : jsstring := lit "van_bill_manager_templates".

Record RowData := mkRow {
  id : jsstring; van : jsstring; vanOut : jsstring;
  eWaybill : jsstring; invoice : jsstring
}.

Record App := mkApp { rows : list RowData; templates : list Template }.

Definition setTemplates (ts : list Template) (app : App) : App :=
  {| rows := rows app; templates := ts |}.

Definition handleSaveTemplate (templateName : option jsstring)
    (app : App) (b : Browser) : App * Browser :=
  if truthy_string templateName
     && strict_ne (trim (default [] templateName)) []
  then
    let vans := filter (fun van => trim van <> []) (van <$> rows app) in
    if (length vans =? 0)%nat then
      (app, alert (lit "Cannot save an empty template.") b)
    else
      let newTemplate := {| name := trim (default [] templateName); vans := vans |} in
      let updatedTemplates :=
        filter (fun t => name t <> name newTemplate) (templates app)
          ++ [newTemplate] in
      (setTemplates updatedTemplates app,
       alert (saved_message (name newTemplate))
         (setItem TEMPLATES_STORAGE_KEY (JSON.stringify updatedTemplates) b))
  else (app, b).

(** *** The rows of the table and the entry form *)

Definition setRows (rs : list RowData) (app : App) : App :=
  {| rows := rs; templates := templates app |}.

(** The state of the form a row is entered with. *)
Record Form := mkForm {
  newVan : jsstring; tHour : jsstring; tMin : jsstring; tAmPm : jsstring;
  newEWaybill : jsstring; newInvoice : jsstring
}.

Definition setTMin (val : jsstring) (form : Form) : Form :=
  {| newVan := newVan form; tHour := tHour form; tMin := val; tAmPm := tAmPm form;
     newEWaybill := newEWaybill form; newInvoice := newInvoice form |}.

(** The change handler of the minutes field:
    [e.target.value.replace(/\D/g, '').slice(0, 2)]. *)
Definition handleMinutesChange (value : jsstring) (form : Form) : Form :=
  let val := slice 0 2 (filter (fun c => isDecimalDigit c = true) value) in
  setTMin val form.

(** The time text [handleAddItem] builds from the three fields. *)
Definition formattedTime (form : Form) : jsstring :=
  match tHour form with
  | [] => []
  | _ :: _ =>
      let m :=
        match tMin form with
        | [] => lit "00"
        | _ :: _ => padStart 2 (lit "0") (tMin form)
        end in
      tHour form ++ lit ":" ++ m ++ lit " " ++ tAmPm form
  end.

Definition is_empty (s : jsstring) : bool :=
  match s with [] => true | _ :: _ => false end.

Definition handleAddItem (form : Form) (app : App) (c : Crypto)
    : Form * App * Crypto :=
  let formattedTime := formattedTime form in
  if is_empty (newVan form) && is_empty formattedTime
     && is_empty (newEWaybill form) && is_empty (newInvoice form)
  then (form, app, c)
  else
    let '(i, c') := randomUUID c in
    let newItem :=
      {| id := i; van := newVan form; vanOut := formattedTime;
         eWaybill := newEWaybill form; invoice := newInvoice form |} in
    ({| newVan := []; tHour := []; tMin := []; tAmPm := lit "PM";
        newEWaybill := []; newInvoice := [] |},
     setRows (rows app ++ [newItem]) app, c').

Definition handleRemoveRow (i : jsstring) (app : App) : App :=
  setRows (filter (fun row => id row <> i) (rows app)) app.

Definition handleDuplicateRow (row : RowData) (app : App) (c : Crypto)
    : App * Crypto :=
  let '(i, c') := randomUUID c in
  let newItem :=
    {| id := i; van := van row; vanOut := vanOut row;
       eWaybill := eWaybill row; invoice := invoice row |} in
  (setRows (rows app ++ [newItem]) app, c').

Definition handleDuplicateLast (app : App) (c : Crypto) : App * Crypto :=
  match last (rows app) with
  | None => (app, c)
  | Some row => handleDuplicateRow row app c
  end.

Fixpoint newRows (vans : list jsstring) (c : Crypto) : list RowData * Crypto :=
  match vans with
  | [] => ([], c)
  | van :: vans' =>
      let '(id, c1) := randomUUID c in
      let '(rest, c2) := newRows vans' c1 in
      ({| id := id; van := van; vanOut := []; eWaybill := []; invoice := [] |}
         :: rest, c2)
  end.

Definition findTemplate (templateName : jsstring) (ts : list Template)
    : option Template :=
  List.find (fun t => bool_decide (name t = templateName)) ts.

Definition handleLoadTemplate (templateName : jsstring) (confirm : bool)
    (app : App) (c : Crypto) : App * jsstring * Crypto :=
  match templateName with
  | [] => (app, templateName, c)
  | _ :: _ =>
      if (0 <? length (rows app))%nat && negb confirm then (app, [], c)
      else
        match findTemplate templateName (templates app) with
        | Some template =>
            let '(rs, c') := newRows (vans template) c in
            (setRows rs app, [], c')
        | None => (app, [], c)
        end
  end.

(** [confirm] is the answer to [window.confirm]. *)
Definition handleClearTable (confirm : bool) (app : App) : App :=
  if confirm then setRows [] app else app.

End V3.

(** ** The service worker *)

Module ServiceWorker.

Definition CACHE_NAME : jsstring := lit "van-bill-manager-v7".

Definition URLS_TO_CACHE : list jsstring :=
  [ lit "/";
    lit "/index.html";
    lit "/index.tsx";
    lit "/App.tsx";
    lit "/types.ts";
    lit "/components/icons.tsx";
    lit "https://cdn.tailwindcss.com";
    lit "https://cdnjs.cloudflare.com/ajax/libs/html-to-image/1.11.11/html-to-image.min.js" ].

(** *** The platform: requests, responses, caches, promises *)

Inductive ResponseType := basic | cors | default_type | opaque | opaqueredirect.

Record Response := mkResponse {
  status : N; type : ResponseType; body : jsstring
}.

Inductive RequestMode := navigate | same_origin | no_cors | cors_mode.

Record Request := mkRequest { url : jsstring; mode : RequestMode }.

#[global] Instance ResponseType_eq_dec : EqDecision ResponseType.
Proof. solve_decision. Defined.
#[global] Instance Response_eq_dec : EqDecision Response.
Proof. solve_decision. Defined.
#[global] Instance RequestMode_eq_dec : EqDecision RequestMode.
Proof. solve_decision. Defined.

(** A cache is a list of request/response pairs, keyed here by the URL of
    the request, and the cache storage is a list of named caches in the
    order of their creation. *)
Abbreviation Cache := (list (jsstring * Response)).
Abbreviation CacheStorage := (list (jsstring * Cache)).

(** The state the worker acts on.  [network u] is what a fetch of [u]
    gives at the moment ([None]: the fetch fails); [requested] lists the
    URLs fetched from the network so far. *)
Record World := mkWorld {
  caches : CacheStorage;
  network : jsstring -> option Response;
  requested : list jsstring;
  console : list jsstring;
  skippedWaiting : bool;
  clientsClaimed : bool
}.

Definition set_caches (cs : CacheStorage) (w : World) : World :=
  {| caches := cs; network := network w; requested := requested w;
     console := console w; skippedWaiting := skippedWaiting w;
     clientsClaimed := clientsClaimed w |}.

Definition add_requested (us : list jsstring) (w : World) : World :=
  {| caches := caches w; network := network w;
     requested := requested w ++ us;
     console := console w; skippedWaiting := skippedWaiting w;
     clientsClaimed := clientsClaimed w |}.

Definition add_console (msg : jsstring) (w : World) : World :=
  {| caches := caches w; network := network w; requested := requested w;
     console := console w ++ [msg]; skippedWaiting := skippedWaiting w;
     clientsClaimed := clientsClaimed w |}.

(** [self.skipWaiting()] *)
Definition skipWaiting (w : World) : World :=
  {| caches := caches w; network := network w; requested := requested w;
     console := console w; skippedWaiting := true;
     clientsClaimed := clientsClaimed w |}.

(** [self.clients.claim()] *)
Definition clients_claim (w : World) : World :=
  {| caches := caches w; network := network w; requested := requested w;
     console := console w; skippedWaiting := skippedWaiting w;
     clientsClaimed := true |}.

(** How a promise settles. *)
Inductive Settled (A : Type) :=
| Fulfilled (a : A)
| Rejected (reason : jsstring).
Arguments Fulfilled {A} a.
Arguments Rejected {A} reason.

(** A promise: the work it stands for, run on the world, and how it
    settles. *)
Definition Promise (A : Type) : Type := World -> Settled A * World.

Definition resolved {A} (a : A) : Promise A := fun w => (Fulfilled a, w).

(** [p.then(k)] *)
Definition then_ {A B} (p : Promise A) (k : A -> Promise B) : Promise B :=
  fun w =>
    match p w with
    | (Fulfilled a, w') => k a w'
    | (Rejected e, w') => (Rejected e, w')
    end.

(** [p.catch(h)] *)
Definition catch_ {A} (p : Promise A) (h : jsstring -> Promise A) : Promise A :=
  fun w =>
    match p w with
    | (Fulfilled a, w') => (Fulfilled a, w')
    | (Rejected e, w') => h e w'
    end.

(** [Promise.all]: the promises of the list were all started, so all of
    them act on the world; the result is rejected with the first
    rejection. *)
Fixpoint Promise_all {A} (ps : list (Promise A)) : Promise (list A) :=
  match ps with
  | [] => resolved []
  | p :: ps' =>
      fun w =>
        let '(r, w1) := p w in
        let '(rs, w2) := Promise_all ps' w1 in
        match r, rs with
        | Fulfilled a, Fulfilled l => (Fulfilled (a :: l), w2)
        | Rejected e, _ => (Rejected e, w2)
        | Fulfilled _, Rejected e => (Rejected e, w2)
        end
  end.

Definition TypeError : jsstring := lit "TypeError".

(** [fetch(request)] *)
Definition fetch (u : jsstring) : Promise Response :=
  fun w =>
    match network w u with
    | Some r => (Fulfilled r, add_requested [u] w)
    | None => (Rejected TypeError, add_requested [u] w)
    end.

(** [cache.match(u)] *)
Fixpoint cache_match (u : jsstring) (c : Cache) : option Response :=
  match c with
  | [] => None
  | (u', r) :: c' => if bool_decide (u' = u) then Some r else cache_match u c'
  end.

(** [caches.match(u)]: the caches are searched in creation order. *)
Fixpoint storage_match (u : jsstring) (cs : CacheStorage) : option Response :=
  match cs with
  | [] => None
  | (_, c) :: cs' =>
      match cache_match u c with
      | Some r => Some r
      | None => storage_match u cs'
      end
  end.

Definition caches_match (u : jsstring) : Promise (option Response) :=
  fun w => (Fulfilled (storage_match u (caches w)), w).

Definition has_cache (n : jsstring) (cs : CacheStorage) : bool :=
  bool_decide (n ∈ fst <$> cs).

(** [caches.open(n)]: the cache of that name, created empty when there is
    none.  The cache object is stood for by its name. *)
Definition caches_open (n : jsstring) : Promise jsstring :=
  fun w =>
    if has_cache n (caches w) then (Fulfilled n, w)
    else (Fulfilled n, set_caches (caches w ++ [(n, [])]) w).

(** The cache of a given name, as [caches.open] would hand it out. *)
Fixpoint cache_named (n : jsstring) (cs : CacheStorage) : option Cache :=
  match cs with
  | [] => None
  | (n', c) :: cs' => if bool_decide (n' = n) then Some c else cache_named n cs'
  end.

(** [caches.keys()] *)
Definition caches_keys : Promise (list jsstring) :=
  fun w => (Fulfilled (fst <$> caches w), w).

(** [caches.delete(n)] *)
Definition caches_delete (n : jsstring) : Promise bool :=
  fun w =>
    (Fulfilled (has_cache n (caches w)),
     set_caches (filter (fun e => fst e <> n) (caches w)) w).

(** [cache.put(u, r)] on the list of one cache: an entry for the same
    request is replaced. *)
Definition cache_put (u : jsstring) (r : Response) (c : Cache) : Cache :=
  filter (fun e => fst e <> u) c ++ [(u, r)].

Definition put_all (es : list (jsstring * Response)) (c : Cache) : Cache :=
  fold_left (fun c e => cache_put (fst e) (snd e) c) es c.

Definition update_cache (n : jsstring) (f : Cache -> Cache) (cs : CacheStorage)
    : CacheStorage :=
  (fun e => if bool_decide (fst e = n) then (fst e, f (snd e)) else e) <$> cs.

(** A response [cache.addAll] accepts: an ok status other than 206. *)
Definition acceptable (r : Response) : bool :=
  (200 <=? status r) && (status r <=? 299) && negb (status r =? 206).

Definition fetch_for_cache (net : jsstring -> option Response) (u : jsstring)
    : option (jsstring * Response) :=
  match net u with
  | Some r => if acceptable r then Some (u, r) else None
  | None => None
  end.

(** [cache.addAll(urls)]: every URL is fetched; the responses are stored
    only when all of them arrived and are acceptable, otherwise the
    promise is rejected and the cache is left as it was. *)
Definition cache_addAll (cache : jsstring) (urls : list jsstring) : Promise unit :=
  fun w =>
    let w1 := add_requested urls w in
    match mapM (fetch_for_cache (network w)) urls with
    | Some es => (Fulfilled tt, set_caches (update_cache cache (put_all es) (caches w1)) w1)
    | None => (Rejected TypeError, w1)
    end.

Definition console_error (msg : jsstring) (err : jsstring) : Promise unit :=
  fun w => (Fulfilled tt, add_console (msg ++ 0x20 :: err) w).

(** The line the install listener logs when [addAll] is rejected. *)
Definition install_log : jsstring := lit "Cache addAll failed" ++ 0x20 :: TypeError.

(** [event.waitUntil(p)]: the phase succeeds when [p] is fulfilled. *)
Definition waitUntil {A} (p : Promise A) (w : World) : bool * World :=
  match p w with
  | (Fulfilled _, w') => (true, w')
  | (Rejected _, w') => (false, w')
  end.

(** [a.indexOf(x)] *)
Fixpoint indexOf (a : list jsstring) (x : jsstring) : Z :=
  match a with
  | [] => -1
  | y :: a' =>
      if bool_decide (y = x) then 0%Z
      else let i := indexOf a' x in if (i =? -1)%Z then (-1)%Z else (i + 1)%Z
  end.

(** *** The three listeners *)

(** The result is whether the install succeeded. *)
Definition on_install (w : World) : bool * World :=
  let '(ok, w') :=
    waitUntil
      (then_ (caches_open CACHE_NAME) (fun cache =>
         catch_ (cache_addAll cache URLS_TO_CACHE)
                (fun err => console_error (lit "Cache addAll failed") err)))
      w in
  (ok, skipWaiting w').

(** The callback of [cacheNames.map] gives a promise for the names it
    deletes and [undefined] for the others. *)
Definition on_activate (w : World) : bool * World :=
  let cacheWhitelist := [CACHE_NAME] in
  let '(ok, w') :=
    waitUntil
      (then_ caches_keys (fun cacheNames =>
         Promise_all
           ((fun cacheName =>
               if (indexOf cacheWhitelist cacheName =? -1)%Z
               then then_ (caches_delete cacheName) (fun b => resolved (Some b))
               else resolved None)
            <$> cacheNames)))
      w in
  (ok, clients_claim w').

(** What a callback can return to the promise machinery: a plain value
    ([undefined] is [None]), or a promise object. *)
Inductive Returned :=
| Plain (v : option Response)
| Thenable (p : Promise (option Response)).

(** [ToBoolean]: [undefined] is falsy, every object is truthy, a promise
    included. *)
Definition ToBoolean (x : Returned) : bool :=
  match x with
  | Plain None => false
  | Plain (Some _) => true
  | Thenable _ => true
  end.

(** [a || b]: [b] is evaluated only when [a] is falsy. *)
Definition or_else (a : Returned) (b : unit -> Returned) : Returned :=
  if ToBoolean a then a else b tt.

(** Resolving a promise with what a callback returned: a promise object
    is followed. *)
Definition resolve (x : Returned) : Promise (option Response) :=
  match x with
  | Plain v => resolved v
  | Thenable p => p
  end.

Definition then_js (p : Promise (option Response))
    (k : option Response -> Returned) : Promise (option Response) :=
  then_ p (fun v => resolve (k v)).

Definition catch_js (p : Promise (option Response))
    (h : jsstring -> Returned) : Promise (option Response) :=
  catch_ p (fun e => resolve (h e)).

(** [fetch(event.request)] as the listener uses it: fulfilled with a
    response object. *)
Definition fetch_request (request : Request) : Promise (option Response) :=
  then_ (fetch (url request)) (fun r => resolved (Some r)).

(** The promise handed to [event.respondWith]. *)
Definition fetch_listener (request : Request) : Promise (option Response) :=
  if bool_decide (mode request = navigate) then
    catch_js (fetch_request request)
      (fun _ => or_else (Thenable (caches_match (lit "/index.html")))
                        (fun _ => Thenable (caches_match (lit "/"))))
  else
    then_js (caches_match (url request)) (fun response =>
      if ToBoolean (Plain response) then Plain response
      else
        Thenable
          (then_js (fetch_request request) (fun response =>
             match response with
             | None => Plain response
             | Some r =>
                 if negb (status r =? 200) || negb (bool_decide (type r = basic))
                 then Plain response
                 else Plain response
             end))).

(** What the page gets. *)
Inductive Outcome :=
| Respond (r : Response)
| NetworkError.

(** [event.respondWith(p)]: a promise that is rejected, or fulfilled with
    something that is not a response, is a network error for the page. *)
Definition respondWith (p : Promise (option Response)) (w : World)
    : Outcome * World :=
  match p w with
  | (Fulfilled (Some r), w') => (Respond r, w')
  | (Fulfilled None, w') => (NetworkError, w')
  | (Rejected _, w') => (NetworkError, w')
  end.

Definition on_fetch (request : Request) (w : World) : Outcome * World :=
  respondWith (fetch_listener request) w.

(** The same worker at a later moment, when the network answers as [net]. *)
Definition set_network (net : jsstring -> option Response) (w : World) : World :=
  {| caches := caches w; network := net; requested := requested w;
     console := console w; skippedWaiting := skippedWaiting w;
     clientsClaimed := clientsClaimed w |}.

(** *** The worlds a fetch event can arrive in

    The browser hands fetch events to a worker only once it has been
    installed and activated.  Before this version installs, the storage
    holds what older versions left: caches under other names, the name
    carrying the version tag.  From then on the listeners run in any
    order, and the network answers now this way, now that. *)



End ServiceWorker.


(** ** Concrete states for the examples *)

Definition sample_app : V1.App :=
  V1.mkApp
    [V1.mkRow (lit "id-1") (lit "CJB-PON") (lit "1") (lit "3");
     V1.mkRow (lit "id-2") (lit "  ") [] (lit "7")]
    [mkTemplate (lit "north") [lit "CJB-MAA"]; mkTemplate (lit "south") [lit "CJB-TVL"]].

Definition sample_browser : Browser := mkBrowser ∅ [] [].

Definition blank_rows_app : V1.App :=
  V1.mkApp [V1.mkRow (lit "id-1") (lit " ") (lit "1") (lit "3")]
           [mkTemplate (lit "north") [lit "CJB-MAA"]].

Definition sample_rows1 : list V1.RowData :=
  [V1.mkRow (lit "id-1") (lit "CJB-PON") (lit "1") (lit "3");
   V1.mkRow (lit "id-2") (lit "CJB-TVL") [] (lit "7")].

Definition sample_rows2 : list V2.RowData :=
  [V2.mkRow (lit "id-3") (lit "CJB-PON") (lit "6:30 PM") (lit "1") (lit "3");
   V2.mkRow (lit "id-4") (lit "CJB-TVL") [] [] (lit "7")].

Definition sample_rows3 : list V3.RowData :=
  [V3.mkRow (lit "id-5") (lit "CJB-PON") (lit "7:00 PM") (lit "2") [];
   V3.mkRow (lit "id-6") (lit "CJB-TVL") [] [] []].

Definition sample_templates : list Template :=
  [mkTemplate (lit "north") [lit "CJB-MAA"]; mkTemplate (lit "south") [lit "CJB-TVL"]].

(** A generator whose [i]-th identifier is the number [i] in unary. *)
Definition sample_crypto : Crypto :=
  {| uuid_at := fun i => replicate (S i) 0x31; drawn := 2 |}.

Definition sample_app2 : V2.App := V2.mkApp sample_rows2 sample_templates.

Definition shell_document : ServiceWorker.Response :=
  ServiceWorker.mkResponse 200 ServiceWorker.basic (lit "<!DOCTYPE html>").

(** No network at all. *)
Definition offline (u : jsstring) : option ServiceWorker.Response := None.

(** Every URL answers, except the first of the two CDN scripts. *)
Definition cdn_down (u : jsstring) : option ServiceWorker.Response :=
  if bool_decide (u = lit "https://cdn.tailwindcss.com") then None
  else Some (ServiceWorker.mkResponse 200 ServiceWorker.basic u).

(** Every URL answers with a document that holds its own address. *)
Definition all_up (u : jsstring) : option ServiceWorker.Response :=
  Some (ServiceWorker.mkResponse 200 ServiceWorker.basic u).

Definition world_of (cs : list (jsstring * list (jsstring * ServiceWorker.Response)))
    (net : jsstring -> option ServiceWorker.Response) : ServiceWorker.World :=
  ServiceWorker.mkWorld cs net [] [] false false.

(** Only the root document is cached. *)
Definition root_only : list (jsstring * list (jsstring * ServiceWorker.Response)) :=
  [(ServiceWorker.CACHE_NAME, [(lit "/", shell_document)])].

(** The caches of two older versions next to the current one. *)
Definition three_versions : list (jsstring * list (jsstring * ServiceWorker.Response)) :=
  [(lit "van-bill-manager-v5", [(lit "/", shell_document)]);
   (ServiceWorker.CACHE_NAME, [(lit "/index.html", shell_document)]);
   (lit "van-bill-manager-v6", [])].


Definition navigation : ServiceWorker.Request :=
  ServiceWorker.mkRequest (lit "/") ServiceWorker.navigate.

Definition index_script : ServiceWorker.Request :=
  ServiceWorker.mkRequest (lit "/index.html") ServiceWorker.no_cors.

(** Two rows of the second version with short identifiers. *)
Definition short_rows : list V2.RowData :=
  [V2.mkRow (lit "a") (lit "CJB-PON") [] (lit "1") (lit "3");
   V2.mkRow (lit "b") (lit "CJB-TVL") [] [] (lit "7")].

(** Rows that carry the two identifiers [sample_crypto] has handed out. *)
Definition drawn_rows3 : list V3.RowData :=
  [V3.mkRow (lit "1") (lit "CJB-PON") (lit "7:00 PM") (lit "2") [];
   V3.mkRow (lit "11") (lit "CJB-TVL") [] [] []].

Definition sample_form : V3.Form :=
  V3.mkForm (lit "CJB-MAA") (lit "6") (lit "5") (lit "AM") [] (lit "12").

(** A stand-in for the time parser of a browser: it knows one text. *)
Definition sample_clock (text : jsstring) : option jsstring :=
  if bool_decide (text = lit "1/1/2000 6:30") then Some (lit "6:30 AM") else None.

(** ** Invariants of the state *)

(** The identifiers [ids] are distinct ones among those the generator has
    handed out so far. *)
Definition drawn_ids (c : Crypto) (ids : list jsstring) : Prop :=
  NoDup ids /\ forall i, i ∈ ids -> exists k, (k < drawn c)%nat /\ i = uuid_at c k.

(** The templates a store holds when all of them came from saves: names
    are pairwise distinct, trimmed and not empty; of the vans there is at
    least one and none is blank. *)
Definition saved_templates (ts : list Template) : Prop :=
  NoDup (name <$> ts)
  /\ Forall (fun t => name t <> [] /\ trim (name t) = name t
                      /\ vans t <> [] /\ Forall (fun van => trim van <> []) (vans t)) ts.

(** ** The versions side by side *)

(** The cells of a row: the columns the first version has, and for the
    later versions the time column next to them. *)
Definition cells1 (row : V1.RowData) : jsstring * jsstring * jsstring * jsstring :=
  (V1.id row, V1.van row, V1.eWaybill row, V1.invoice row).

Definition cells2 (row : V2.RowData) : jsstring * jsstring * jsstring * jsstring :=
  (V2.id row, V2.van row, V2.eWaybill row, V2.invoice row).

Definition cells3 (row : V3.RowData) : jsstring * jsstring * jsstring * jsstring :=
  (V3.id row, V3.van row, V3.eWaybill row, V3.invoice row).

(** A state of the first version and one of the second that show the same
    table, the time column apart, and hold the same templates. *)
Definition same_table12 (app1 : V1.App) (app2 : V2.App) : Prop :=
  cells1 <$> V1.rows app1 = cells2 <$> V2.rows app2
  /\ V1.templates app1 = V2.templates app2.

(** A state of the second version and one of the third that show the same
    table and hold the same templates. *)
Definition same_table23 (app2 : V2.App) (app3 : V3.App) : Prop :=
  (fun row => (cells2 row, V2.vanOut row)) <$> V2.rows app2
  = (fun row => (cells3 row, V3.vanOut row)) <$> V3.rows app3
  /\ V2.templates app2 = V3.templates app3.

(** The column of the second version a column of the first version is. *)
Definition later_field (field : V1.Field) : V2.Field :=
  match field with
  | V1.f_van => V2.f_van
  | V1.f_eWaybill => V2.f_eWaybill
  | V1.f_invoice => V2.f_invoice
  end.

(** * Properties *)

(** ** The template store *)

Section TemplateStore.

Implicit Types (s n : jsstring) (ts : list Template) (b : Browser).

Lemma trim_nil : trim [] = [].
Proof. reflexivity. Qed.

Lemma strict_ne_true (a c : jsstring) : strict_ne a c = true <-> a <> c.
Proof.
  unfold strict_ne. rewrite negb_true_iff, bool_decide_eq_false. reflexivity.
Qed.

(** The guard of [handleSaveTemplate] holds exactly when the answer is a
    string that does not trim to the empty string. *)
Lemma save_guard (templateName : option jsstring) :
  truthy_string templateName && strict_ne (trim (default [] templateName)) [] = true
  <-> trim (default [] templateName) <> [].
Proof.
  rewrite andb_true_iff, strict_ne_true. split; [tauto|].
  intros H. split; [|exact H].
  destruct templateName as [[|c s]|]; [now elim H|reflexivity|now elim H].
Qed.

Lemma save_guard_false (templateName : option jsstring) :
  trim (default [] templateName) = [] ->
  truthy_string templateName && strict_ne (trim (default [] templateName)) [] = false.
Proof.
  intros H. apply not_true_is_false. rewrite save_guard. congruence.
Qed.

Lemma length_eqb_0_nil {A} (l : list A) : (length l =? 0)%nat = true <-> l = [].
Proof. destruct l; simpl; split; congruence. Qed.

(** The three ways [handleSaveTemplate] goes. *)
Lemma V1_save_rejected_name templateName (app : V1.App) b :
  trim (default [] templateName) = [] ->
  V1.handleSaveTemplate templateName app b = (app, b).
Proof.
  intros H. unfold V1.handleSaveTemplate. now rewrite save_guard_false.
Qed.

Lemma V1_save_rejected_vans templateName (app : V1.App) b :
  trim (default [] templateName) <> [] ->
  filter (fun van => trim van <> []) (V1.van <$> V1.rows app) = [] ->
  V1.handleSaveTemplate templateName app b
  = (app, alert (lit "Cannot save an empty template. Please add VANs to the table.") b).
Proof.
  intros Hn Hv. unfold V1.handleSaveTemplate.
  rewrite (proj2 (save_guard _) Hn), Hv. reflexivity.
Qed.

Lemma V1_save_accepted templateName (app : V1.App) b :
  trim (default [] templateName) <> [] ->
  filter (fun van => trim van <> []) (V1.van <$> V1.rows app) <> [] ->
  V1.handleSaveTemplate templateName app b
  = let newTemplate :=
      {| name := trim (default [] templateName);
         vans := filter (fun van => trim van <> []) (V1.van <$> V1.rows app) |} in
    let updatedTemplates :=
      filter (fun t => name t <> name newTemplate) (V1.templates app) ++ [newTemplate] in
    (V1.setTemplates updatedTemplates app,
     alert (saved_message (name newTemplate))
       (setItem V1.TEMPLATES_STORAGE_KEY (JSON.stringify updatedTemplates) b)).
Proof.
  intros Hn Hv. unfold V1.handleSaveTemplate.
  rewrite (proj2 (save_guard _) Hn).
  destruct (length _ =? 0)%nat eqn:E; [|reflexivity].
  apply length_eqb_0_nil in E. contradiction.
Qed.

(** Appending a template of name [n] to the templates of another name. *)
Lemma upsert_same_name ts (t : Template) :
  filter (fun t' => name t' = name t)
         (filter (fun t' => name t' <> name t) ts ++ [t]) = [t].
Proof.
  rewrite filter_app, (filter_cons_True _ t []), filter_nil by reflexivity.
  replace (filter _ (filter _ ts)) with (@nil Template); [reflexivity|].
  symmetry. induction ts as [|x ts IH]; [reflexivity|].
  rewrite (filter_cons (fun t' => name t' <> name t)).
  destruct (decide (name x <> name t)) as [Hx|Hx]; [|exact IH].
  rewrite filter_cons_False by (intros E; exact (Hx E)). exact IH.
Qed.

Lemma upsert_other_names ts (t : Template) :
  filter (fun t' => name t' <> name t)
         (filter (fun t' => name t' <> name t) ts ++ [t])
  = filter (fun t' => name t' <> name t) ts.
Proof.
  rewrite filter_app, (filter_cons_False _ t []), filter_nil by (intros H; now apply H).
  rewrite app_nil_r.
  induction ts as [|x ts IH]; [reflexivity|].
  rewrite (filter_cons _ x ts).
  destruct (decide (name x <> name t)) as [Hx|Hx]; [|exact IH].
  rewrite filter_cons_True by exact Hx. now rewrite IH.
Qed.

End TemplateStore.

(** C3. A valid save (the name does not trim to the empty string, at least
    one van is not blank) leaves exactly one template of the saved name,
    the new one; it is the last of the list, and the templates of other
    names are the ones there were, in the same order.  This holds in
    particular when a template of that name existed before. *)
Theorem C3_save_replaces_same_name (s : jsstring) (app : V1.App) (b : Browser) :
  trim s <> [] ->
  filter (fun van => trim van <> []) (V1.van <$> V1.rows app) <> [] ->
  let saved :=
    {| name := trim s;
       vans := filter (fun van => trim van <> []) (V1.van <$> V1.rows app) |} in
  let updated := V1.templates (fst (V1.handleSaveTemplate (Some s) app b)) in
  filter (fun t => name t = trim s) updated = [saved]
  /\ last updated = Some saved
  /\ filter (fun t => name t <> trim s) updated
     = filter (fun t => name t <> trim s) (V1.templates app).
Proof.
  intros Hn Hv saved updated. subst updated.
  rewrite (V1_save_accepted (Some s) app b Hn Hv). cbn [fst V1.templates V1.setTemplates default name].
  fold saved. split; [|split].
  - exact (upsert_same_name (V1.templates app) saved).
  - apply last_snoc.
  - exact (upsert_other_names (V1.templates app) saved).
Qed.

Lemma C3_save_replaces_same_name_witness :
  let saved := mkTemplate (lit "north") [lit "CJB-PON"] in
  let updated :=
    V1.templates (fst (V1.handleSaveTemplate (Some (lit " north ")) sample_app sample_browser)) in
  (exists t, t ∈ V1.templates sample_app /\ name t = trim (lit " north "))
  /\ filter (fun t => name t = lit "north") updated = [saved]
  /\ last updated = Some saved
  /\ filter (fun t => name t <> lit "north") updated
     = filter (fun t => name t <> lit "north") (V1.templates sample_app).
Proof.
  split.
  - exists (mkTemplate (lit "north") [lit "CJB-MAA"]). split; [|reflexivity].
    apply list_elem_of_here.
  - apply (C3_save_replaces_same_name (lit " north ") sample_app sample_browser).
    + vm_compute. discriminate.
    + vm_compute. discriminate.
Defined.

(** C4, as the code has it.  A save whose name is missing or trims to the
    empty string is dropped without any dialog; a save with a name but no
    van that is not blank shows an alert.  In both cases the templates in
    memory and the stored blob stay as they were. *)
Theorem C4_rejected_save_changes_nothing
    (templateName : option jsstring) (app : V1.App) (b : Browser) :
  (trim (default [] templateName) = [] ->
     V1.handleSaveTemplate templateName app b = (app, b))
  /\ (trim (default [] templateName) <> [] ->
      filter (fun van => trim van <> []) (V1.van <$> V1.rows app) = [] ->
      let '(app', b') := V1.handleSaveTemplate templateName app b in
      app' = app
      /\ localStorage b' = localStorage b
      /\ alerts b'
         = alerts b ++ [lit "Cannot save an empty template. Please add VANs to the table."]).
Proof.
  split.
  - apply V1_save_rejected_name.
  - intros Hn Hv. rewrite (V1_save_rejected_vans _ _ _ Hn Hv). auto.
Qed.

Lemma C4_rejected_save_changes_nothing_witness :
  V1.handleSaveTemplate (Some (lit "   ")) sample_app sample_browser
  = (sample_app, sample_browser)
  /\ let '(app', b') :=
       V1.handleSaveTemplate (Some (lit "north")) blank_rows_app sample_browser in
     app' = blank_rows_app
     /\ localStorage b' = localStorage sample_browser
     /\ alerts b'
        = alerts sample_browser
            ++ [lit "Cannot save an empty template. Please add VANs to the table."].
Proof.
  split.
  - apply (C4_rejected_save_changes_nothing (Some (lit "   ")) sample_app sample_browser).
    reflexivity.
  - apply (C4_rejected_save_changes_nothing (Some (lit "north")) blank_rows_app sample_browser).
    + vm_compute. discriminate.
    + reflexivity.
Defined.

(** C4 as the specification words it does not hold: a save under a name of
    blanks only surfaces no alert. *)
Lemma C4_blank_name_shows_no_alert :
  ~ (forall (templateName : option jsstring) (app : V1.App) (b : Browser),
       trim (default [] templateName) = []
       \/ filter (fun van => trim van <> []) (V1.van <$> V1.rows app) = [] ->
       exists msg,
         alerts (snd (V1.handleSaveTemplate templateName app b)) = alerts b ++ [msg]).
Proof.
  intros H.
  destruct (H (Some (lit "   ")) sample_app sample_browser) as [msg Hmsg].
  - left. reflexivity.
  - vm_compute in Hmsg. discriminate.
Qed.

(** C10. The three versions of [handleSaveTemplate] agree: on the same
    stored templates, the same answer to the prompt and row lists with the
    same [van] column, they compute the same templates and leave the same
    [localStorage], written under the same key. *)
Theorem C10_save_same_in_all_versions
    (templateName : option jsstring) (ts : list Template) (b : Browser)
    (rows1 : list V1.RowData) (rows2 : list V2.RowData) (rows3 : list V3.RowData) :
  V1.van <$> rows1 = V2.van <$> rows2 ->
  V2.van <$> rows2 = V3.van <$> rows3 ->
  let r1 := V1.handleSaveTemplate templateName (V1.mkApp rows1 ts) b in
  let r2 := V2.handleSaveTemplate templateName (V2.mkApp rows2 ts) b in
  let r3 := V3.handleSaveTemplate templateName (V3.mkApp rows3 ts) b in
  V1.TEMPLATES_STORAGE_KEY = V2.TEMPLATES_STORAGE_KEY
  /\ V2.TEMPLATES_STORAGE_KEY = V3.TEMPLATES_STORAGE_KEY
  /\ V1.templates (fst r1) = V2.templates (fst r2)
  /\ V2.templates (fst r2) = V3.templates (fst r3)
  /\ localStorage (snd r1) = localStorage (snd r2)
  /\ localStorage (snd r2) = localStorage (snd r3).
Proof.
  intros H12 H23.
  unfold V1.handleSaveTemplate, V2.handleSaveTemplate, V3.handleSaveTemplate.
  cbn [V1.rows V2.rows V3.rows V1.templates V2.templates V3.templates].
  rewrite H12, H23.
  destruct (truthy_string templateName && _); cbn zeta.
  - destruct (length _ =? 0)%nat; repeat split; reflexivity.
  - repeat split; reflexivity.
Qed.

Lemma C10_save_same_in_all_versions_witness :
  let r1 := V1.handleSaveTemplate (Some (lit " north ")) (V1.mkApp sample_rows1 sample_templates) sample_browser in
  let r2 := V2.handleSaveTemplate (Some (lit " north ")) (V2.mkApp sample_rows2 sample_templates) sample_browser in
  let r3 := V3.handleSaveTemplate (Some (lit " north ")) (V3.mkApp sample_rows3 sample_templates) sample_browser in
  V1.TEMPLATES_STORAGE_KEY = V2.TEMPLATES_STORAGE_KEY
  /\ V2.TEMPLATES_STORAGE_KEY = V3.TEMPLATES_STORAGE_KEY
  /\ V1.templates (fst r1) = V2.templates (fst r2)
  /\ V2.templates (fst r2) = V3.templates (fst r3)
  /\ localStorage (snd r1) = localStorage (snd r2)
  /\ localStorage (snd r2) = localStorage (snd r3).
Proof.
  apply (C10_save_same_in_all_versions (Some (lit " north ")) sample_templates
           sample_browser sample_rows1 sample_rows2 sample_rows3); reflexivity.
Defined.

(** ** Loading a template (second version) *)

Section LoadTemplate.

Lemma newRows_spec (vans : list jsstring) (c : Crypto) :
  V2.newRows vans c
  = (imap (fun i van =>
             {| V2.id := uuid_at c (drawn c + i); V2.van := van;
                V2.vanOut := []; V2.eWaybill := []; V2.invoice := [] |}) vans,
     {| uuid_at := uuid_at c; drawn := drawn c + length vans |}).
Proof.
  revert c. induction vans as [|van vans IH]; intros c.
  - simpl. destruct c; simpl. now rewrite Nat.add_0_r.
  - cbn [V2.newRows]. unfold randomUUID. rewrite IH. cbn [uuid_at drawn imap length].
    rewrite Nat.add_0_r. f_equal.
    + f_equal. apply imap_ext. intros i x _. cbn. now rewrite Nat.add_succ_r.
    + f_equal. lia.
Qed.

Lemma imap_rows_van (vans : list jsstring) (f : nat -> jsstring) :
  V2.van <$> imap (fun i van =>
                {| V2.id := f i; V2.van := van;
                   V2.vanOut := []; V2.eWaybill := []; V2.invoice := [] |}) vans
  = vans.
Proof.
  revert f. induction vans as [|v vs IH]; intros f; [reflexivity|].
  cbn [imap fmap list_fmap]. f_equal. apply (IH (f ∘ S)).
Qed.

Lemma imap_rows_id (vans : list jsstring) (f : nat -> jsstring) :
  V2.id <$> imap (fun i van =>
                {| V2.id := f i; V2.van := van;
                   V2.vanOut := []; V2.eWaybill := []; V2.invoice := [] |}) vans
  = f <$> seq 0 (length vans).
Proof.
  revert f. induction vans as [|v vs IH]; intros f; [reflexivity|].
  cbn [imap fmap list_fmap length seq]. f_equal.
  etrans; [apply (IH (f ∘ S))|].
  rewrite <- seq_shift, <- list_fmap_compose. reflexivity.
Qed.

End LoadTemplate.

(** C5. Loading a stored template found by name replaces the rows one for
    one with its vans: one row per van, in the order of the template, each
    with the next identifier of the generator, the van copied and the
    other fields empty; identifiers of a generator that never repeats are
    pairwise distinct.  A name that is not in the store leaves the rows as
    they are.  So it is for every load that goes through, that is, with
    the table empty or the replacement confirmed, as the specification
    requires of a load; a load that is declined, or made with the empty
    value of the select element, changes neither rows nor generator.  No
    template saved has the empty name, so a template found by name is
    found under a name the handler takes. *)
Theorem C5_load_replaces_rows
    (templateName : jsstring) (confirm : bool) (app : V2.App) (c : Crypto) :
  let '(app', _, c') := V2.handleLoadTemplate templateName confirm app c in
  (templateName <> [] ->
   V2.rows app = [] \/ confirm = true ->
   match V2.findTemplate templateName (V2.templates app) with
   | Some template =>
       name template = templateName
       /\ V2.rows app'
          = imap (fun i van =>
                    {| V2.id := uuid_at c (drawn c + i); V2.van := van;
                       V2.vanOut := []; V2.eWaybill := []; V2.invoice := [] |})
                 (vans template)
       /\ length (V2.rows app') = length (vans template)
       /\ V2.van <$> V2.rows app' = vans template
       /\ drawn c' = (drawn c + length (vans template))%nat
       /\ ((forall i j, uuid_at c i = uuid_at c j -> i = j) ->
           NoDup (V2.id <$> V2.rows app'))
       /\ V2.templates app' = V2.templates app
   | None => app' = app /\ c' = c
   end)
  /\ (V2.findTemplate templateName (V2.templates app) = None ->
      app' = app /\ c' = c)
  /\ (templateName = [] \/ (V2.rows app <> [] /\ confirm = false) ->
      app' = app /\ c' = c)
  /\ (Forall (fun t => name t <> []) (V2.templates app) ->
      is_Some (V2.findTemplate templateName (V2.templates app)) ->
      templateName <> []).
Proof.
  destruct (V2.handleLoadTemplate templateName confirm app c) as [[app' select] c']
    eqn:Hload.
  unfold V2.handleLoadTemplate in Hload. split; [|split; [|split]].
  - intros Hname Hgo. destruct templateName as [|ch rest]; [congruence|].
    assert ((0 <? length (V2.rows app))%nat && negb confirm = false) as Hasked.
    { destruct Hgo as [-> | ->]; [reflexivity|apply andb_false_r]. }
    rewrite Hasked in Hload.
    destruct (V2.findTemplate (ch :: rest) (V2.templates app)) as [template|] eqn:Hfind;
      [|injection Hload as <- _ <-; split; reflexivity].
    rewrite newRows_spec in Hload. injection Hload as <- _ <-.
    cbn [V2.rows V2.setRows V2.templates drawn].
    repeat split.
    + unfold V2.findTemplate in Hfind. apply find_some in Hfind as [_ Hfind].
      now apply bool_decide_eq_true in Hfind.
    + apply length_imap.
    + apply imap_rows_van.
    + intros Hinj. rewrite (imap_rows_id _ (fun i => uuid_at c (drawn c + i))).
      apply NoDup_fmap_2_strong; [|apply NoDup_seq].
      intros i j _ _ Hij. apply Hinj in Hij. lia.
  - intros Hnone. destruct templateName as [|ch rest];
      [injection Hload as <- _ <-; split; reflexivity|].
    destruct ((0 <? length (V2.rows app))%nat && negb confirm);
      [injection Hload as <- _ <-; split; reflexivity|].
    rewrite Hnone in Hload. injection Hload as <- _ <-. split; reflexivity.
  - intros Hno. destruct templateName as [|ch rest];
      [injection Hload as <- _ <-; split; reflexivity|].
    destruct Hno as [Hno|[Hrows ->]]; [discriminate Hno|].
    destruct (V2.rows app) as [|row rows]; [congruence|].
    injection Hload as <- _ <-. split; reflexivity.
  - intros Hnames [template Hfind] ->.
    unfold V2.findTemplate in Hfind. apply find_some in Hfind as [Hin Hfind].
    apply bool_decide_eq_true in Hfind. rewrite Forall_forall in Hnames.
    apply (Hnames template); [|exact Hfind]. now apply list_elem_of_In.
Qed.

Lemma C5_load_replaces_rows_witness :
  V2.handleLoadTemplate (lit "south") true sample_app2 sample_crypto
  = (V2.mkApp [V2.mkRow (lit "111") (lit "CJB-TVL") [] [] []] sample_templates,
     [],
     {| uuid_at := uuid_at sample_crypto; drawn := 3 |})
  /\ V2.handleLoadTemplate (lit "south") false sample_app2 sample_crypto
     = (sample_app2, [], sample_crypto)
  /\ let '(app', _, c') := V2.handleLoadTemplate (lit "south") true sample_app2 sample_crypto in
     (lit "south" <> [] ->
      V2.rows sample_app2 = [] \/ true = true ->
      match V2.findTemplate (lit "south") (V2.templates sample_app2) with
      | Some template =>
          name template = lit "south"
          /\ V2.rows app'
             = imap (fun i van =>
                       {| V2.id := uuid_at sample_crypto (drawn sample_crypto + i);
                          V2.van := van;
                          V2.vanOut := []; V2.eWaybill := []; V2.invoice := [] |})
                    (vans template)
          /\ length (V2.rows app') = length (vans template)
          /\ V2.van <$> V2.rows app' = vans template
          /\ drawn c' = (drawn sample_crypto + length (vans template))%nat
          /\ ((forall i j, uuid_at sample_crypto i = uuid_at sample_crypto j -> i = j) ->
              NoDup (V2.id <$> V2.rows app'))
          /\ V2.templates app' = V2.templates sample_app2
      | None => app' = sample_app2 /\ c' = sample_crypto
      end)
     /\ (V2.findTemplate (lit "south") (V2.templates sample_app2) = None ->
         app' = sample_app2 /\ c' = sample_crypto)
     /\ (lit "south" = [] \/ (V2.rows sample_app2 <> [] /\ true = false) ->
         app' = sample_app2 /\ c' = sample_crypto)
     /\ (Forall (fun t => name t <> []) (V2.templates sample_app2) ->
         is_Some (V2.findTemplate (lit "south") (V2.templates sample_app2)) ->
         lit "south" <> []).
Proof.
  split; [reflexivity|]. split; [reflexivity|].
  apply (C5_load_replaces_rows (lit "south") true sample_app2 sample_crypto).
Defined.

(** ** JSON: what [JSON.stringify] writes, [JSON.parse] reads back *)

Module JSONFacts.
Import JSON.

Section Quote.

Lemma hex_digit_value d : d < 16 -> hex_value (hex_digit d) = Some d.
Proof.
  intros H. destruct d as [|p]; [reflexivity|].
  do 4 (try destruct p as [p|p|]); try reflexivity; lia.
Qed.

Lemma hex4_unicode_escape c :
  c < 65536 ->
  hex4 (hex_digit ((c / 4096) mod 16)) (hex_digit ((c / 256) mod 16))
       (hex_digit ((c / 16) mod 16)) (hex_digit (c mod 16)) = Some c.
Proof.
  intros Hc. unfold hex4.
  rewrite !hex_digit_value by (apply N.mod_lt; discriminate).
  f_equal.
  pose proof (N.div_mod c 16 ltac:(lia)).
  pose proof (N.div_mod (c / 16) 16 ltac:(lia)).
  pose proof (N.div_mod (c / 256) 16 ltac:(lia)).
  assert (c / 256 = c / 16 / 16) by (rewrite N.Div0.div_div; reflexivity).
  assert (c / 4096 = c / 256 / 16) by (rewrite N.Div0.div_div; reflexivity).
  assert (c / 4096 < 16) by (apply N.Div0.div_lt_upper_bound; lia).
  assert ((c / 4096) mod 16 = c / 4096) by (apply N.mod_small; lia).
  lia.
Qed.

Lemma parse_chars_plain c rest :
  (c =? 0x22) = false -> (c =? 0x5C) = false -> (c <? 0x20) = false ->
  parse_chars (c :: rest) = cons_fst c (parse_chars rest).
Proof. intros H1 H2 H3. cbn [parse_chars]. now rewrite H1, H2, H3. Qed.

Lemma parse_chars_escaped e u rest :
  (e =? 0x75) = false -> unescape e = Some u ->
  parse_chars (0x5C :: e :: rest) = cons_fst u (parse_chars rest).
Proof. intros H1 H2. cbn [parse_chars]. now rewrite H1, H2. Qed.

Lemma parse_chars_unicode c rest :
  c < 65536 ->
  parse_chars (unicode_escape c ++ rest) = cons_fst c (parse_chars rest).
Proof.
  intros Hc. unfold unicode_escape. cbn [app parse_chars].
  change (0x5C =? 0x22) with false. change (0x5C =? 0x5C) with true.
  change (0x75 =? 0x75) with true. cbv iota.
  now rewrite hex4_unicode_escape.
Qed.

Lemma parse_chars_quote_unit c rest :
  parse_chars (quote_unit c ++ rest) = cons_fst c (parse_chars rest).
Proof.
  unfold quote_unit.
  repeat match goal with
  | |- context [if ?x =? ?y then _ else _] =>
      destruct (N.eqb_spec x y) as [->|?]; [reflexivity|]
  end.
  destruct (_ || _) eqn:E.
  - apply parse_chars_unicode.
    unfold is_leading_surrogate, is_trailing_surrogate in E.
    rewrite !orb_true_iff, !andb_true_iff, N.ltb_lt, !N.leb_le in E. lia.
  - apply orb_false_iff in E as [E _]. apply orb_false_iff in E as [E _].
    apply parse_chars_plain; [now apply N.eqb_neq..|exact E].
Qed.


Lemma surrogate_is_plain c :
  is_leading_surrogate c || is_trailing_surrogate c = true ->
  (c =? 0x22) = false /\ (c =? 0x5C) = false /\ (c <? 0x20) = false.
Proof.
  unfold is_leading_surrogate, is_trailing_surrogate.
  rewrite orb_true_iff, !andb_true_iff, !N.leb_le, !N.eqb_neq, N.ltb_ge. lia.
Qed.

Lemma parse_chars_surrogate c rest :
  is_leading_surrogate c || is_trailing_surrogate c = true ->
  parse_chars (c :: rest) = cons_fst c (parse_chars rest).
Proof.
  intros H. destruct (surrogate_is_plain c H) as (H1 & H2 & H3).
  now apply parse_chars_plain.
Qed.

Lemma parse_chars_quote_body s rest :
  parse_chars (quote_body s ++ 0x22 :: rest) = Some (s, rest).
Proof.
  remember (length s) as n eqn:Hn. assert (Hle : (length s <= n)%nat) by lia.
  clear Hn. revert s Hle.
  induction n as [|n IH]; intros [|c s1] Hle; cbn [length] in Hle;
    try reflexivity; try lia.
  assert (Hunit : forall s', (length s' <= n)%nat ->
            parse_chars ((quote_unit c ++ quote_body s') ++ 0x22 :: rest)
            = Some (c :: s', rest)).
  { intros s' Hs'. rewrite <- app_assoc, parse_chars_quote_unit, IH by exact Hs'.
    reflexivity. }
  cbn [quote_body]. destruct (is_leading_surrogate c) eqn:Hl.
  - destruct s1 as [|d s2].
    + rewrite parse_chars_quote_unit. reflexivity.
    + destruct (is_trailing_surrogate d) eqn:Ht.
      * cbn [app length] in *.
        rewrite (parse_chars_surrogate c) by (now rewrite Hl).
        rewrite (parse_chars_surrogate d) by (rewrite Ht; apply orb_true_r).
        rewrite IH by lia. reflexivity.
      * apply Hunit. lia.
  - apply Hunit. lia.
Qed.

End Quote.

Section Parse.

Lemma parse_value_quote f s rest :
  (length (quote s) < f)%nat ->
  parse_value f (quote s ++ rest) = Some (String s, rest).
Proof.
  intros Hf. destruct f as [|f]; [lia|].
  unfold quote. cbn [app]. rewrite <- app_assoc. cbn [app].
  cbn [parse_value skip_ws]. change (is_ws 0x22) with false. cbv iota.
  change (0x22 =? 0x22) with true. cbv iota.
  now rewrite parse_chars_quote_body.
Qed.

(** After a value, a comma or a closing bracket follows at once. *)
Lemma parse_elements_last f v s rest :
  parse_value f s = Some (v, 0x5D :: rest) ->
  parse_elements (S f) s = Some ([v], rest).
Proof. intros H. cbn [parse_elements]. rewrite H. reflexivity. Qed.

Lemma parse_elements_more f v vs s s' rest :
  parse_value f s = Some (v, 0x2C :: s') ->
  parse_elements f s' = Some (vs, rest) ->
  parse_elements (S f) s = Some (v :: vs, rest).
Proof. intros H1 H2. cbn [parse_elements]. rewrite H1. cbn. rewrite H2. reflexivity. Qed.

Lemma parse_elements_join {A} (ser : A -> jsstring) (val : A -> value) (xs : list A) :
  (forall x f rest, x ∈ xs -> (length (ser x) < f)%nat ->
     parse_value f (ser x ++ rest) = Some (val x, rest)) ->
  xs <> [] ->
  forall f rest,
    (length (join_comma (ser <$> xs)) + 1 < f)%nat ->
    parse_elements f (join_comma (ser <$> xs) ++ 0x5D :: rest)
    = Some (val <$> xs, rest).
Proof.
  induction xs as [|x xs IH]; [congruence|]. intros Hser _ f rest Hf.
  destruct f as [|f]; [lia|].
  destruct xs as [|y xs].
  - cbn [fmap list_fmap join_comma] in *.
    apply parse_elements_last, Hser; [apply list_elem_of_here|lia].
  - change (join_comma (ser <$> x :: y :: xs))
      with (ser x ++ 0x2C :: join_comma (ser <$> y :: xs)) in *.
    rewrite length_app in Hf. cbn [length] in Hf.
    rewrite <- app_assoc. cbn [app].
    apply parse_elements_more with (s' := join_comma (ser <$> y :: xs) ++ 0x5D :: rest).
    + apply Hser; [apply list_elem_of_here|lia].
    + apply IH; [|congruence|lia].
      intros x' f' rest' Hx'. apply Hser. now apply list_elem_of_further.
Qed.

Lemma parse_value_array f d s :
  is_ws d = false -> (d =? 0x5D) = false ->
  parse_value (S f) (0x5B :: d :: s)
  = match parse_elements f (d :: s) with
    | Some (vs, rest) => Some (Array vs, rest)
    | None => None
    end.
Proof.
  intros H1 H2. cbn [parse_value skip_ws]. change (is_ws 0x5B) with false. cbv iota.
  change (0x5B =? 0x22) with false. change (0x5B =? 0x5B) with true. cbv iota.
  cbn [skip_ws]. rewrite H1, H2. reflexivity.
Qed.

Lemma parse_value_strings f (vs : list jsstring) rest :
  (length (write_array (quote <$> vs)) < f)%nat ->
  parse_value f (write_array (quote <$> vs) ++ rest)
  = Some (Array (String <$> vs), rest).
Proof.
  intros Hf. destruct f as [|f]; [lia|]. unfold write_array in *.
  cbn [length] in Hf. rewrite length_app in Hf. cbn [length] in Hf.
  destruct vs as [|v vs]; [reflexivity|].
  pose proof (parse_elements_join quote String (v :: vs)
                ltac:(intros; now apply parse_value_quote) ltac:(congruence)
                f rest ltac:(lia)) as Hel.
  cbn [app]. rewrite <- app_assoc. cbn [app].
  assert (exists s, join_comma (quote <$> v :: vs) = 0x22 :: s) as [s Hs].
  { destruct vs; cbn; eauto. }
  rewrite Hs in *. cbn [app] in *.
  rewrite parse_value_array by reflexivity. now rewrite Hel.
Qed.

Lemma parse_members_last f k v s s1 rest :
  parse_chars s = Some (k, 0x3A :: s1) ->
  parse_value f s1 = Some (v, 0x7D :: rest) ->
  parse_members (S f) (0x22 :: s) = Some ([(k, v)], rest).
Proof.
  intros Hk Hv. cbn [parse_members skip_ws]. change (is_ws 0x22) with false. cbv iota.
  change (0x22 =? 0x22) with true. cbv iota. rewrite Hk. cbn. now rewrite Hv.
Qed.

Lemma parse_members_more f k v ms s s1 s2 rest :
  parse_chars s = Some (k, 0x3A :: s1) ->
  parse_value f s1 = Some (v, 0x2C :: s2) ->
  parse_members f s2 = Some (ms, rest) ->
  parse_members (S f) (0x22 :: s) = Some ((k, v) :: ms, rest).
Proof.
  intros Hk Hv Hms. cbn [parse_members skip_ws]. change (is_ws 0x22) with false. cbv iota.
  change (0x22 =? 0x22) with true. cbv iota. rewrite Hk. cbn. rewrite Hv. cbn.
  now rewrite Hms.
Qed.

Lemma parse_value_object f s :
  parse_value (S f) (0x7B :: 0x22 :: s)
  = match parse_members f (0x22 :: s) with
    | Some (ms, rest) => Some (Object ms, rest)
    | None => None
    end.
Proof. reflexivity. Qed.

Lemma parse_value_template f (t : Template) rest :
  (length (stringify_template t) < f)%nat ->
  parse_value f (stringify_template t ++ rest) = Some (of_template t, rest).
Proof.
  intros Hf. unfold stringify_template in *.
  repeat first [rewrite length_app in Hf | progress cbn [length] in Hf].
  destruct f as [|[|[|f]]]; [lia..|].
  change (quote (lit "name")) with (0x22 :: quote_body (lit "name") ++ [0x22]).
  change (quote (lit "vans")) with (0x22 :: quote_body (lit "vans") ++ [0x22]).
  repeat first [rewrite <- app_assoc | progress cbn [app]].
  rewrite parse_value_object.
  erewrite parse_members_more; [reflexivity| | |].
  - apply parse_chars_quote_body.
  - apply parse_value_quote. lia.
  - eapply parse_members_last.
    + apply parse_chars_quote_body.
    + apply parse_value_strings. lia.
Qed.

Lemma parse_stringify (ts : list Template) :
  parse (stringify ts) = Some (Array (of_template <$> ts)).
Proof.
  unfold parse, stringify, write_array.
  destruct ts as [|t ts]; [reflexivity|].
  pose proof (parse_elements_join stringify_template of_template (t :: ts)
                ltac:(intros; now apply parse_value_template) ltac:(congruence)
                (length (0x5B :: join_comma (stringify_template <$> t :: ts) ++ [0x5D]))
                [] ) as Hel.
  assert (exists s, join_comma (stringify_template <$> t :: ts) = 0x7B :: s) as [s Hs].
  { destruct ts; cbn; eauto. }
  rewrite Hs in *. cbn [app] in *.
  rewrite parse_value_array by reflexivity.
  rewrite Hel; [reflexivity|]. cbn [length]. rewrite !length_app. cbn [length]. lia.
Qed.

Lemma as_template_of_template (t : Template) : as_template (of_template t) = Some t.
Proof.
  destruct t as [n vs]. unfold as_template, of_template. cbn [name vans].
  change (get (lit "name") _) with (Some (String n)).
  change (get (lit "vans") _) with (Some (Array (String <$> vs))).
  cbn [as_string as_strings]. now rewrite mapM_fmap_Some.
Qed.

Lemma as_templates_of_templates (ts : list Template) :
  as_templates (Array (of_template <$> ts)) = Some ts.
Proof. cbn [as_templates]. apply mapM_fmap_Some, as_template_of_template. Qed.

End Parse.

(** *** The fuel [parse] starts with always suffices *)

Section Fuel.

Lemma skip_ws_length s : (length (skip_ws s) <= length s)%nat.
Proof.
  induction s as [|c s IH]; [reflexivity|]. cbn [skip_ws].
  destruct (is_ws c); cbn [length]; lia.
Qed.

Lemma cons_fst_Some {A B} (a : A) (r : option (list A * B)) l rest :
  cons_fst a r = Some (l, rest) -> exists l', r = Some (l', rest) /\ l = a :: l'.
Proof. destruct r as [[l' rest']|]; [|discriminate]. intros [= <- <-]. eauto. Qed.

Lemma parse_chars_length s str rest :
  parse_chars s = Some (str, rest) -> (length rest < length s)%nat.
Proof.
  remember (length s) as n eqn:Hn. assert (Hle : (length s <= n)%nat) by lia.
  clear Hn. revert s str rest Hle.
  induction n as [|n IH]; intros [|c s1] str rest Hle H; cbn [length] in *;
    try discriminate; try lia.
  cbn [parse_chars] in H.
  destruct (c =? 0x22); [injection H as <- <-; lia|].
  destruct (c =? 0x5C).
  - destruct s1 as [|e s2]; [discriminate|]. cbn [length] in *.
    destruct (e =? 0x75).
    + destruct s2 as [|h1 [|h2 [|h3 [|h4 s3]]]]; try discriminate.
      destruct (hex4 h1 h2 h3 h4); [|discriminate]. cbn [length] in *.
      apply cons_fst_Some in H as (l' & H & _). apply IH in H; lia.
    + destruct (unescape e); [|discriminate].
      apply cons_fst_Some in H as (l' & H & _). apply IH in H; lia.
  - destruct (c <? 0x20); [discriminate|].
    apply cons_fst_Some in H as (l' & H & _). apply IH in H; lia.
Qed.

Lemma expect_length w s rest :
  expect w s = Some rest -> (length rest <= length s)%nat.
Proof.
  revert s. induction w as [|a w IH]; intros s H.
  - cbn in H. injection H as <-. lia.
  - destruct s as [|c s]; [discriminate|]. cbn [expect] in H.
    destruct (a =? c); [|discriminate]. apply IH in H. cbn [length]. lia.
Qed.

Lemma span_digits_length s ds rest :
  span_digits s = (ds, rest) -> (length rest <= length s)%nat.
Proof.
  revert ds rest. induction s as [|c s IH]; intros ds rest H.
  - injection H as <- <-. lia.
  - cbn [span_digits] in H. destruct (is_digit c).
    + destruct (span_digits s) as [ds' rest'] eqn:E. injection H as <- <-.
      specialize (IH _ _ eq_refl). cbn [length]. lia.
    + injection H as <- <-. lia.
Qed.

Lemma parse_number_length s n rest :
  parse_number s = Some (n, rest) -> (length rest < length s)%nat.
Proof.
  unfold parse_number. intros H.
  assert (Hint : forall s0 i s1, parse_int s0 = Some (i, s1) ->
                   (length s1 < length s0)%nat).
  { intros [|c s0] i s1 Hi; [discriminate|]. cbn [parse_int] in Hi.
    destruct (c =? 0x30); [injection Hi as <- <-; cbn; lia|].
    destruct (is_digit c); [|discriminate].
    destruct (span_digits s0) as [ds r] eqn:E. injection Hi as <- <-.
    apply span_digits_length in E. cbn [length]. lia. }
  assert (Hfrac : forall s1 f s2, parse_frac s1 = Some (f, s2) ->
                   (length s2 <= length s1)%nat).
  { intros [|c s1] f s2 Hf; [injection Hf as <- <-; lia|]. cbn [parse_frac] in Hf.
    destruct (c =? 0x2E); [|injection Hf as <- <-; lia].
    destruct (span_digits s1) as [[|d ds] r] eqn:E; [discriminate|].
    injection Hf as <- <-. apply span_digits_length in E. cbn [length]. lia. }
  assert (Hexp : forall s2 e s3, parse_exp s2 = Some (e, s3) ->
                   (length s3 <= length s2)%nat).
  { intros [|c s2] e s3 He; [injection He as <- <-; lia|]. cbn [parse_exp] in He.
    destruct ((c =? 0x65) || (c =? 0x45)); [|injection He as <- <-; lia].
    destruct s2 as [|g s2'].
    - cbn in He. discriminate.
    - destruct ((g =? 0x2B) || (g =? 0x2D)).
      + destruct (span_digits s2') as [[|d ds] r] eqn:E; [discriminate|].
        injection He as <- <-. apply span_digits_length in E. cbn [length]. lia.
      + destruct (span_digits (g :: s2')) as [[|d ds] r] eqn:E; [discriminate|].
        injection He as <- <-. apply span_digits_length in E. cbn [length] in *. lia. }
  destruct s as [|c s'].
  - destruct (parse_int []) as [[i s1]|] eqn:Hi; discriminate.
  - destruct (c =? 0x2D).
    + destruct (parse_int s') as [[i s1]|] eqn:Hi; [|discriminate].
      destruct (parse_frac s1) as [[f s2]|] eqn:Hf; [|discriminate].
      destruct (parse_exp s2) as [[e s3]|] eqn:He; [|discriminate].
      injection H as <- <-. apply Hint in Hi. apply Hfrac in Hf. apply Hexp in He.
      cbn [length]. lia.
    + destruct (parse_int (c :: s')) as [[i s1]|] eqn:Hi; [|discriminate].
      destruct (parse_frac s1) as [[f s2]|] eqn:Hf; [|discriminate].
      destruct (parse_exp s2) as [[e s3]|] eqn:He; [|discriminate].
      injection H as <- <-. apply Hint in Hi. apply Hfrac in Hf. apply Hexp in He.
      lia.
Qed.


Lemma fuel_enough f :
  enough parse_value f /\ enough parse_elements f /\ enough parse_members f.
Proof.
  induction f as [|f (IHv & IHe & IHm)]; [repeat split; discriminate|].
  split; [|split]; intros s a rest H.
  - cbn [parse_value] in H.
    destruct (skip_ws s) as [|c s'] eqn:Hs; [discriminate|].
    pose proof (skip_ws_length s) as Hlen. rewrite Hs in Hlen. cbn [length] in Hlen.
    destruct (c =? 0x22) eqn:E1.
    { destruct (parse_chars s') as [[str r]|] eqn:Hc; [|discriminate].
      injection H as <- <-. pose proof (parse_chars_length _ _ _ Hc).
      split; [lia|]. intros [|g] Hg; [lia|]. cbn [parse_value].
      now rewrite Hs, E1, Hc. }
    destruct (c =? 0x5B) eqn:E2.
    { destruct (skip_ws s') as [|d s''] eqn:Hs'; [discriminate|].
      pose proof (skip_ws_length s') as Hlen'. rewrite Hs' in Hlen'. cbn [length] in Hlen'.
      destruct (d =? 0x5D) eqn:E3.
      - injection H as <- <-. split; [lia|]. intros [|g] Hg; [lia|].
        cbn [parse_value]. now rewrite Hs, E1, E2, Hs', E3.
      - destruct (parse_elements f s') as [[vs r]|] eqn:He; [|discriminate].
        injection H as <- <-. destruct (IHe _ _ _ He) as [Hl Hg'].
        split; [lia|]. intros [|g] Hg; [lia|]. cbn [parse_value].
        rewrite Hs, E1, E2, Hs', E3, Hg' by lia. reflexivity. }
    destruct (c =? 0x7B) eqn:E3.
    { destruct (skip_ws s') as [|d s''] eqn:Hs'; [discriminate|].
      pose proof (skip_ws_length s') as Hlen'. rewrite Hs' in Hlen'. cbn [length] in Hlen'.
      destruct (d =? 0x7D) eqn:E4.
      - injection H as <- <-. split; [lia|]. intros [|g] Hg; [lia|].
        cbn [parse_value]. now rewrite Hs, E1, E2, E3, Hs', E4.
      - destruct (parse_members f s') as [[ms r]|] eqn:He; [|discriminate].
        injection H as <- <-. destruct (IHm _ _ _ He) as [Hl Hg'].
        split; [lia|]. intros [|g] Hg; [lia|]. cbn [parse_value].
        rewrite Hs, E1, E2, E3, Hs', E4, Hg' by lia. reflexivity. }
    destruct (c =? 0x74) eqn:E4.
    { destruct (expect (lit "rue") s') as [r|] eqn:He; [|discriminate].
      injection H as <- <-. pose proof (expect_length _ _ _ He).
      split; [lia|]. intros [|g] Hg; [lia|]. cbn [parse_value].
      now rewrite Hs, E1, E2, E3, E4, He. }
    destruct (c =? 0x66) eqn:E5.
    { destruct (expect (lit "alse") s') as [r|] eqn:He; [|discriminate].
      injection H as <- <-. pose proof (expect_length _ _ _ He).
      split; [lia|]. intros [|g] Hg; [lia|]. cbn [parse_value].
      now rewrite Hs, E1, E2, E3, E4, E5, He. }
    destruct (c =? 0x6E) eqn:E6.
    { destruct (expect (lit "ull") s') as [r|] eqn:He; [|discriminate].
      injection H as <- <-. pose proof (expect_length _ _ _ He).
      split; [lia|]. intros [|g] Hg; [lia|]. cbn [parse_value].
      now rewrite Hs, E1, E2, E3, E4, E5, E6, He. }
    destruct (parse_number (c :: s')) as [[n r]|] eqn:Hn; [|discriminate].
    injection H as <- <-. pose proof (parse_number_length _ _ _ Hn) as Hl.
    cbn [length] in Hl.
    split; [lia|]. intros [|g] Hg; [lia|]. cbn [parse_value].
    now rewrite Hs, E1, E2, E3, E4, E5, E6, Hn.
  - cbn [parse_elements] in H.
    destruct (parse_value f s) as [[v s1]|] eqn:Hv; [|discriminate].
    destruct (IHv _ _ _ Hv) as [Hl1 Hg1].
    destruct (skip_ws s1) as [|c s2] eqn:Hs1; [discriminate|].
    pose proof (skip_ws_length s1) as Hlen. rewrite Hs1 in Hlen. cbn [length] in Hlen.
    destruct (c =? 0x5D) eqn:E1.
    { injection H as <- <-. split; [lia|]. intros [|g] Hg; [lia|].
      cbn [parse_elements]. rewrite Hg1 by lia. now rewrite Hs1, E1. }
    destruct (c =? 0x2C) eqn:E2; [|discriminate].
    apply cons_fst_Some in H as (vs & He & ->).
    destruct (IHe _ _ _ He) as [Hl2 Hg2].
    split; [lia|]. intros [|g] Hg; [lia|].
    cbn [parse_elements]. rewrite Hg1 by lia. rewrite Hs1, E1, E2, Hg2 by lia.
    reflexivity.
  - cbn [parse_members] in H.
    destruct (skip_ws s) as [|q s0] eqn:Hs; [discriminate|].
    pose proof (skip_ws_length s) as Hlen. rewrite Hs in Hlen. cbn [length] in Hlen.
    destruct (q =? 0x22) eqn:E0; [|discriminate].
    destruct (parse_chars s0) as [[k s1]|] eqn:Hk; [|discriminate].
    pose proof (parse_chars_length _ _ _ Hk) as Hlk.
    destruct (skip_ws s1) as [|colon s2] eqn:Hs1; [discriminate|].
    pose proof (skip_ws_length s1) as Hlen1. rewrite Hs1 in Hlen1. cbn [length] in Hlen1.
    destruct (colon =? 0x3A) eqn:E1; [|discriminate].
    destruct (parse_value f s2) as [[v s3]|] eqn:Hv; [|discriminate].
    destruct (IHv _ _ _ Hv) as [Hl1 Hg1].
    destruct (skip_ws s3) as [|c s4] eqn:Hs3; [discriminate|].
    pose proof (skip_ws_length s3) as Hlen3. rewrite Hs3 in Hlen3. cbn [length] in Hlen3.
    destruct (c =? 0x7D) eqn:E2.
    { injection H as <- <-. split; [lia|]. intros [|g] Hg; [lia|].
      cbn [parse_members]. rewrite Hs, E0, Hk, Hs1, E1, Hg1 by lia.
      now rewrite Hs3, E2. }
    destruct (c =? 0x2C) eqn:E3; [|discriminate].
    apply cons_fst_Some in H as (ms & Hm & ->).
    destruct (IHm _ _ _ Hm) as [Hl2 Hg2].
    split; [lia|]. intros [|g] Hg; [lia|].
    cbn [parse_members]. rewrite Hs, E0, Hk, Hs1, E1, Hg1 by lia.
    rewrite Hs3, E2, E3, Hg2 by lia. reflexivity.
Qed.

(** [parse] never fails for want of fuel: it accepts a text as soon as
    some amount of fuel does. *)
Lemma parse_fuel_independent (text : jsstring) (f : nat) v rest :
  parse_value f text = Some (v, rest) -> skip_ws rest = [] ->
  parse text = Some v.
Proof.
  intros H Hrest. destruct (fuel_enough f) as (Hv & _ & _).
  destruct (Hv _ _ _ H) as [_ Hg]. unfold parse.
  rewrite (Hg (S (length text))) by lia. now rewrite Hrest.
Qed.

End Fuel.

End JSONFacts.

(** C9. After a successful save, the mount effect run on the browser the
    save left behind reads the stored blob back into exactly the templates
    the save computed, and the saved template, with its name and its vans,
    is among them. *)
Theorem C9_saved_template_survives_reload (s : jsstring) (app : V1.App) (b : Browser) :
  trim s <> [] ->
  filter (fun van => trim van <> []) (V1.van <$> V1.rows app) <> [] ->
  let saved :=
    {| name := trim s;
       vans := filter (fun van => trim van <> []) (V1.van <$> V1.rows app) |} in
  let '(app', b') := V1.handleSaveTemplate (Some s) app b in
  getItem V1.TEMPLATES_STORAGE_KEY b' = Some (JSON.stringify (V1.templates app'))
  /\ V1.loadStoredTemplates b' = (Typed (V1.templates app'), b')
  /\ saved ∈ V1.templates app'.
Proof.
  intros Hn Hv saved. rewrite (V1_save_accepted (Some s) app b Hn Hv).
  change (default [] (Some s)) with s.
  cbn [name V1.templates V1.setTemplates]. fold saved.
  match goal with
  | |- context [setItem _ (JSON.stringify ?u)] => set (updated := u)
  end.
  assert (Hget : getItem V1.TEMPLATES_STORAGE_KEY
                   (alert (saved_message (trim s))
                      (setItem V1.TEMPLATES_STORAGE_KEY (JSON.stringify updated) b))
                 = Some (JSON.stringify updated)).
  { unfold getItem, alert, setItem. cbn [localStorage]. apply lookup_insert_eq. }
  split; [exact Hget|split].
  - unfold V1.loadStoredTemplates. rewrite Hget.
    destruct (JSON.stringify updated) as [|c blob] eqn:Hblob; [discriminate Hblob|].
    rewrite <- Hblob, JSONFacts.parse_stringify, JSONFacts.as_templates_of_templates.
    reflexivity.
  - apply elem_of_app. right. apply list_elem_of_here.
Qed.

Lemma C9_saved_template_survives_reload_witness :
  let saved := mkTemplate (lit "north") [lit "CJB-PON"] in
  let '(app', b') :=
    V1.handleSaveTemplate (Some (lit " north ")) sample_app sample_browser in
  getItem V1.TEMPLATES_STORAGE_KEY b' = Some (JSON.stringify (V1.templates app'))
  /\ V1.loadStoredTemplates b' = (Typed (V1.templates app'), b')
  /\ saved ∈ V1.templates app'.
Proof.
  apply (C9_saved_template_survives_reload (lit " north ") sample_app sample_browser).
  - vm_compute. discriminate.
  - vm_compute. discriminate.
Defined.

(** ** The service worker *)

Module WorkerFacts.
Import ServiceWorker.

Lemma set_caches_same w : set_caches (caches w) w = w.
Proof. now destruct w. Qed.

Lemma filter_ext_elem {A} (P Q : A -> Prop) `{!forall x, Decision (P x)}
    `{!forall x, Decision (Q x)} (l : list A) :
  (forall x, x ∈ l -> P x <-> Q x) -> filter P l = filter Q l.
Proof.
  induction l as [|x l IH]; intros Hext; [reflexivity|].
  rewrite !filter_cons.
  rewrite IH by (intros y Hy; apply Hext; now apply list_elem_of_further).
  pose proof (Hext x ltac:(apply list_elem_of_here)) as Hx.
  destruct (decide (P x)), (decide (Q x)); tauto || reflexivity.
Qed.

Lemma filter_none {A} (P : A -> Prop) `{!forall x, Decision (P x)} (l : list A) :
  (forall x, x ∈ l -> ~ P x) -> filter P l = [].
Proof.
  induction l as [|x l IH]; intros Hall; [reflexivity|].
  rewrite filter_cons_False by (apply Hall, list_elem_of_here).
  apply IH. intros y Hy. now apply Hall, list_elem_of_further.
Qed.

Lemma filter_all {A} (P : A -> Prop) `{!forall x, Decision (P x)} (l : list A) :
  (forall x, x ∈ l -> P x) -> filter P l = l.
Proof.
  induction l as [|x l IH]; intros Hall; [reflexivity|].
  rewrite filter_cons_True by (apply Hall, list_elem_of_here).
  f_equal. apply IH. intros y Hy. now apply Hall, list_elem_of_further.
Qed.

(** *** Activate *)

Lemma indexOf_whitelist (n : jsstring) :
  (indexOf [CACHE_NAME] n =? -1)%Z = negb (bool_decide (CACHE_NAME = n)).
Proof. cbn [indexOf]. now destruct (bool_decide (CACHE_NAME = n)). Qed.

(** The promises the activate listener hands to [Promise.all]. *)
Lemma delete_others (names : list jsstring) (w : World) :
  exists rs,
    Promise_all
      ((fun cacheName =>
          if (indexOf [CACHE_NAME] cacheName =? -1)%Z
          then then_ (caches_delete cacheName) (fun b => resolved (Some b))
          else resolved None) <$> names) w
    = (Fulfilled rs,
       set_caches
         (filter (fun e => fst e = CACHE_NAME \/ fst e ∉ names) (caches w)) w).
Proof.
  revert w. induction names as [|n names IH]; intros w.
  - exists []. cbn [fmap list_fmap Promise_all]. unfold resolved. f_equal.
    rewrite filter_all; [now rewrite set_caches_same|].
    intros e _. right. apply not_elem_of_nil.
  - cbn [fmap list_fmap Promise_all]. rewrite indexOf_whitelist.
    destruct (bool_decide_reflect (CACHE_NAME = n)) as [<-|Hn]; cbn [negb].
    + unfold resolved at 1. destruct (IH w) as [rs ->]. eexists. f_equal.
      f_equal. apply filter_ext_elem. intros e _. rewrite not_elem_of_cons.
      destruct (decide (fst e = CACHE_NAME)); tauto.
    + assert (Hdel : then_ (caches_delete n) (fun b => resolved (Some b)) w
                     = (Fulfilled (Some (has_cache n (caches w))),
                        set_caches (filter (fun e => fst e <> n) (caches w)) w))
        by reflexivity.
      rewrite Hdel.
      destruct (IH (set_caches (filter (fun e => fst e <> n) (caches w)) w))
        as [rs ->].
      eexists. f_equal. unfold set_caches. cbn [caches network requested console
        skippedWaiting clientsClaimed]. f_equal.
      rewrite list_filter_filter. apply filter_ext_elem.
      intros e _. rewrite not_elem_of_cons. split.
      * intros [[->|?] ?]; [now left|now right].
      * intros [->|[? ?]]; [split; [now left|congruence]|split; [now right|assumption]].
Qed.

Lemma on_activate_caches (w : World) :
  on_activate w
  = (true,
     clients_claim
       (set_caches (filter (fun e => fst e = CACHE_NAME) (caches w)) w)).
Proof.
  unfold on_activate, waitUntil, then_ at 1, caches_keys.
  destruct (delete_others (fst <$> caches w) w) as [rs ->].
  do 3 f_equal. apply filter_ext_elem. intros e He. split; [|now left].
  intros [?|Hne]; [assumption|]. exfalso. apply Hne. now apply list_elem_of_fmap_2.
Qed.

Lemma filter_key_NoDup {B} (k : jsstring) (l : list (jsstring * B)) :
  NoDup (fst <$> l) -> (length (filter (fun e => fst e = k) l) <= 1)%nat.
Proof.
  induction l as [|e l IH]; [cbn; lia|].
  rewrite fmap_cons, NoDup_cons. intros [Hnotin Hnd].
  rewrite filter_cons. destruct (decide (fst e = k)) as [He|He]; [|now apply IH].
  rewrite filter_none; [cbn; lia|].
  intros e' He' Hk. apply Hnotin. rewrite He, <- Hk. now apply list_elem_of_fmap_2.
Qed.


(** *** Fetch *)

Lemma fetch_listener_navigate (request : Request) (w : World) :
  mode request = navigate ->
  fetch_listener request w
  = match network w (url request) with
    | Some r => (Fulfilled (Some r), add_requested [url request] w)
    | None =>
        (Fulfilled (storage_match (lit "/index.html") (caches w)),
         add_requested [url request] w)
    end.
Proof.
  intros Hm. unfold fetch_listener. rewrite bool_decide_eq_true_2 by exact Hm.
  unfold catch_js, catch_, fetch_request, then_, fetch.
  destruct (network w (url request)); reflexivity.
Qed.

Lemma fetch_listener_other (request : Request) (w : World) :
  mode request <> navigate ->
  fetch_listener request w
  = match storage_match (url request) (caches w) with
    | Some r => (Fulfilled (Some r), w)
    | None =>
        match network w (url request) with
        | Some r => (Fulfilled (Some r), add_requested [url request] w)
        | None => (Rejected TypeError, add_requested [url request] w)
        end
    end.
Proof.
  intros Hm. unfold fetch_listener. rewrite bool_decide_eq_false_2 by exact Hm.
  unfold then_js, then_ at 1, caches_match.
  destruct (storage_match (url request) (caches w)) as [r|]; [reflexivity|].
  cbn [ToBoolean resolve]. unfold fetch_request, then_, fetch.
  destruct (network w (url request)) as [r|]; [|reflexivity].
  cbn. now destruct (negb (status r =? 200) || _).
Qed.

(** *** Install *)

Lemma cache_match_app (u : jsstring) (c1 c2 : Cache) :
  cache_match u (c1 ++ c2)
  = match cache_match u c1 with Some r => Some r | None => cache_match u c2 end.
Proof.
  induction c1 as [|[u' r] c1 IH]; [reflexivity|]. cbn [app cache_match].
  now destruct (bool_decide (u' = u)).
Qed.

Lemma cache_match_filter (u u' : jsstring) (c : Cache) :
  cache_match u (filter (fun e => fst e <> u') c)
  = if bool_decide (u = u') then None else cache_match u c.
Proof.
  induction c as [|[v r] c IH]; [now destruct (bool_decide (u = u'))|].
  rewrite filter_cons. cbn [fst].
  destruct (decide (v <> u')) as [Hv|Hv]; cbn [cache_match]; rewrite IH.
  - destruct (bool_decide_reflect (v = u)) as [->|?]; [|reflexivity].
    now rewrite bool_decide_eq_false_2.
  - apply dec_stable in Hv. subst v.
    destruct (bool_decide_reflect (u = u')) as [->|Hu]; [reflexivity|].
    rewrite bool_decide_eq_false_2 by congruence. reflexivity.
Qed.

Lemma cache_match_put (u u' : jsstring) (r : Response) (c : Cache) :
  cache_match u (cache_put u' r c)
  = if bool_decide (u = u') then Some r else cache_match u c.
Proof.
  unfold cache_put. rewrite cache_match_app, cache_match_filter. cbn [cache_match].
  destruct (bool_decide_reflect (u = u')) as [->|Hu].
  - now rewrite bool_decide_eq_true_2.
  - rewrite (bool_decide_eq_false_2 (u' = u)) by congruence.
    now destruct (cache_match u c).
Qed.

Lemma cache_match_put_all_other (u : jsstring) (es : list (jsstring * Response))
    (c : Cache) :
  u ∉ fst <$> es -> cache_match u (put_all es c) = cache_match u c.
Proof.
  revert c. induction es as [|[u' r] es IH]; intros c Hu; [reflexivity|].
  rewrite fmap_cons, not_elem_of_cons in Hu. destruct Hu as [Hne Hu].
  unfold put_all. cbn [fold_left]. fold (put_all es (cache_put u' r c)).
  rewrite IH by exact Hu. rewrite cache_match_put.
  now rewrite bool_decide_eq_false_2.
Qed.

Lemma cache_match_put_all (u : jsstring) (r : Response)
    (es : list (jsstring * Response)) (c : Cache) :
  NoDup (fst <$> es) -> (u, r) ∈ es -> cache_match u (put_all es c) = Some r.
Proof.
  revert c. induction es as [|[u' r'] es IH]; intros c Hnd Hin.
  - now apply not_elem_of_nil in Hin.
  - rewrite fmap_cons, NoDup_cons in Hnd. destruct Hnd as [Hnotin Hnd].
    unfold put_all. cbn [fold_left]. fold (put_all es (cache_put u' r' c)).
    apply elem_of_cons in Hin as [Heq|Hin].
    + injection Heq as -> ->.
      rewrite cache_match_put_all_other by exact Hnotin.
      rewrite cache_match_put. now rewrite bool_decide_eq_true_2.
    + now apply IH.
Qed.

Lemma cache_named_update (n : jsstring) (f : Cache -> Cache) (cs : CacheStorage) :
  cache_named n (update_cache n f cs) = f <$> cache_named n cs.
Proof.
  induction cs as [|[n' c] cs IH]; [reflexivity|].
  unfold update_cache in *. cbn [fmap list_fmap fst snd cache_named].
  destruct (bool_decide_reflect (n' = n)) as [->|Hn]; cbn [cache_named].
  - now rewrite bool_decide_eq_true_2.
  - rewrite bool_decide_eq_false_2 by exact Hn. exact IH.
Qed.

Lemma cache_named_app (n : jsstring) (cs1 cs2 : CacheStorage) :
  cache_named n (cs1 ++ cs2)
  = match cache_named n cs1 with Some c => Some c | None => cache_named n cs2 end.
Proof.
  induction cs1 as [|[n' c] cs1 IH]; [reflexivity|]. cbn [app cache_named].
  now destruct (bool_decide (n' = n)).
Qed.

Lemma has_cache_named (n : jsstring) (cs : CacheStorage) :
  has_cache n cs = true <-> is_Some (cache_named n cs).
Proof.
  unfold has_cache. rewrite bool_decide_eq_true.
  induction cs as [|[n' c] cs IH].
  - cbn. split; [intros H; now apply not_elem_of_nil in H|intros [? ?]; discriminate].
  - rewrite fmap_cons, elem_of_cons. cbn [fst cache_named].
    destruct (bool_decide_reflect (n' = n)) as [->|Hn].
    + split; [eauto|now left].
    + rewrite <- IH. split; [intros [?|?]; [congruence|assumption]|now right].
Qed.

(** The cache storage once [caches.open(n)] has settled. *)
Lemma caches_open_spec (n : jsstring) (w : World) :
  exists cs,
    caches_open n w = (Fulfilled n, set_caches cs w)
    /\ is_Some (cache_named n cs)
    /\ cs = (if has_cache n (caches w) then caches w else caches w ++ [(n, [])]).
Proof.
  unfold caches_open. destruct (has_cache n (caches w)) eqn:Hhas.
  - exists (caches w). rewrite set_caches_same. repeat split.
    now apply has_cache_named.
  - eexists. repeat split. rewrite cache_named_app. cbn [cache_named].
    rewrite bool_decide_eq_true_2 by reflexivity. destruct (cache_named n (caches w)); eauto.
Qed.

Lemma manifest_NoDup : NoDup URLS_TO_CACHE.
Proof. apply (bool_decide_unpack _). vm_compute. exact I. Qed.

Lemma fetch_for_cache_Some net u e :
  fetch_for_cache net u = Some e ->
  exists r, e = (u, r) /\ net u = Some r /\ acceptable r = true.
Proof.
  unfold fetch_for_cache. destruct (net u) as [r|]; [|discriminate].
  destruct (acceptable r) eqn:E; [|discriminate]. intros [= <-]. eauto.
Qed.

Lemma fetched_entries net (urls : list jsstring) es :
  mapM (fetch_for_cache net) urls = Some es ->
  fst <$> es = urls
  /\ forall u, u ∈ urls -> exists r, net u = Some r /\ (u, r) ∈ es.
Proof.
  intros H. apply mapM_Some_1 in H.
  induction H as [|u e urls es Hue _ [IH1 IH2]].
  - split; [reflexivity|]. intros u Hu. now apply not_elem_of_nil in Hu.
  - apply fetch_for_cache_Some in Hue as (r & -> & Hr & _). split.
    + cbn. now rewrite IH1.
    + intros u' Hu'. apply elem_of_cons in Hu' as [->|Hu'].
      * exists r. split; [assumption|apply list_elem_of_here].
      * destruct (IH2 u' Hu') as (r' & ? & ?). exists r'.
        split; [assumption|now apply list_elem_of_further].
Qed.

(** The two ways an install goes. *)
Lemma on_install_spec (w : World) :
  let opened :=
    if has_cache CACHE_NAME (caches w) then caches w
    else caches w ++ [(CACHE_NAME, [])] in
  on_install w
  = match mapM (fetch_for_cache (network w)) URLS_TO_CACHE with
    | Some es =>
        (true,
         skipWaiting
           (set_caches (update_cache CACHE_NAME (put_all es) opened)
              (add_requested URLS_TO_CACHE w)))
    | None =>
        (true,
         skipWaiting
           (add_console install_log
              (set_caches opened (add_requested URLS_TO_CACHE w))))
    end.
Proof.
  intros opened. unfold on_install, waitUntil, then_ at 1.
  destruct (caches_open_spec CACHE_NAME w) as (cs & -> & _ & Hcs). fold opened in Hcs.
  subst cs. unfold catch_, cache_addAll. cbn [network set_caches].
  destruct (mapM _ URLS_TO_CACHE) as [es|]; reflexivity.
Qed.

(** *** Cache names are keys

    The names of the cache storage are pairwise distinct at the start,
    when there is no cache, and every listener keeps them so. *)

Lemma update_cache_names (n : jsstring) (f : Cache -> Cache) (cs : CacheStorage) :
  fst <$> update_cache n f cs = fst <$> cs.
Proof.
  unfold update_cache. induction cs as [|[n' c] cs IH]; [reflexivity|].
  cbn [fmap list_fmap fst snd] in *. rewrite IH.
  now destruct (bool_decide (n' = n)).
Qed.

Lemma opened_names_NoDup (n : jsstring) (cs : CacheStorage) :
  NoDup (fst <$> cs) ->
  NoDup (fst <$> (if has_cache n cs then cs else cs ++ [(n, [])])).
Proof.
  intros Hnd. unfold has_cache.
  destruct (bool_decide_reflect (n ∈ fst <$> cs)) as [Hin|Hin]; [exact Hnd|].
  rewrite fmap_app. apply NoDup_app. split; [exact Hnd|]. split.
  - intros x Hx Hx'. cbn in Hx'. apply list_elem_of_singleton in Hx'. congruence.
  - cbn. apply NoDup_singleton.
Qed.

Lemma on_install_names_NoDup (w : World) :
  NoDup (fst <$> caches w) -> NoDup (fst <$> caches (snd (on_install w))).
Proof.
  intros Hnd. rewrite on_install_spec.
  destruct (mapM _ URLS_TO_CACHE); cbn [snd caches skipWaiting set_caches add_console];
    rewrite ?update_cache_names; now apply opened_names_NoDup.
Qed.

Lemma on_activate_names_NoDup (w : World) :
  NoDup (fst <$> caches w) -> NoDup (fst <$> caches (snd (on_activate w))).
Proof.
  intros Hnd. rewrite on_activate_caches. cbn [snd caches clients_claim set_caches].
  induction (caches w) as [|e cs IH]; [constructor|].
  rewrite fmap_cons, NoDup_cons in Hnd. destruct Hnd as [Hnotin Hnd].
  rewrite filter_cons. destruct (decide (fst e = CACHE_NAME)); [|now apply IH].
  rewrite fmap_cons. apply NoDup_cons. split; [|now apply IH].
  intros Hin. apply Hnotin. apply list_elem_of_fmap in Hin as (e' & -> & He').
  apply list_elem_of_filter in He' as [_ He']. now apply list_elem_of_fmap_2.
Qed.

End WorkerFacts.

(** ** The life of the worker *)

Module LifecycleFacts.
Import ServiceWorker.


(** A document stored in the cache of one name, while no cache held one
    for that URL before, is the one [caches.match] finds. *)
Lemma storage_match_update (u : jsstring) (r : Response) (n : jsstring)
    (f : Cache -> Cache) (cs : CacheStorage) :
  storage_match u cs = None ->
  (forall c, cache_match u (f c) = Some r) ->
  n ∈ fst <$> cs ->
  storage_match u (update_cache n f cs) = Some r.
Proof.
  intros Hnone Hf Hn. unfold update_cache.
  induction cs as [|[n' c] cs IH]; [now apply not_elem_of_nil in Hn|].
  cbn [storage_match] in Hnone.
  destruct (cache_match u c) eqn:Hc; [discriminate|].
  cbn [fmap list_fmap fst snd]. destruct (bool_decide_reflect (n' = n)) as [->|Hne].
  - cbn [storage_match]. now rewrite Hf.
  - cbn [storage_match]. rewrite Hc. apply IH; [exact Hnone|].
    rewrite fmap_cons in Hn. apply elem_of_cons in Hn as [Hn|Hn]; [cbn in Hn; congruence|exact Hn].
Qed.

Lemma opened_has_cache (n : jsstring) (cs : CacheStorage) :
  n ∈ fst <$> (if has_cache n cs then cs else cs ++ [(n, [])]).
Proof.
  unfold has_cache. destruct (bool_decide_reflect (n ∈ fst <$> cs)); [assumption|].
  rewrite fmap_app. apply elem_of_app. right. apply list_elem_of_here.
Qed.

Lemma storage_match_opened (u n : jsstring) (cs : CacheStorage) :
  storage_match u (if has_cache n cs then cs else cs ++ [(n, [])]) = storage_match u cs.
Proof.
  destruct (has_cache n cs); [reflexivity|].
  induction cs as [|[n' c] cs IH]; [reflexivity|]. cbn [app storage_match].
  now rewrite IH.
Qed.

(** The cache after [put_all]: the entries under other URLs, then the new
    ones. *)
Lemma put_all_spec (es : list (jsstring * Response)) (c : Cache) :
  NoDup (fst <$> es) ->
  put_all es c = filter (fun e => fst e ∉ fst <$> es) c ++ es.
Proof.
  revert c. induction es as [|e es IH]; intros c Hnd.
  - cbn. rewrite WorkerFacts.filter_all, app_nil_r; [reflexivity|].
    intros x _. apply not_elem_of_nil.
  - rewrite fmap_cons in Hnd. apply NoDup_cons in Hnd as [He Hnd].
    unfold put_all. cbn [fold_left]. fold (put_all es (cache_put (fst e) (snd e) c)).
    rewrite IH by exact Hnd. unfold cache_put. rewrite filter_app.
    rewrite list_filter_filter.
    rewrite (filter_cons_True _ (fst e, snd e) []) by exact He.
    rewrite filter_nil, <- app_assoc. cbn [app]. destruct e as [u r]. cbn [fst snd].
    f_equal. apply WorkerFacts.filter_ext_elem. intros x _. rewrite fmap_cons.
    rewrite not_elem_of_cons. cbn [fst]. tauto.
Qed.

Lemma put_all_twice (es : list (jsstring * Response)) (c : Cache) :
  NoDup (fst <$> es) -> put_all es (put_all es c) = put_all es c.
Proof.
  intros Hnd. rewrite !put_all_spec by exact Hnd. rewrite filter_app.
  rewrite list_filter_filter. f_equal.
  rewrite (WorkerFacts.filter_none _ es), app_nil_r.
  - apply WorkerFacts.filter_ext_elem. intros x _. tauto.
  - intros x Hx Hnot. apply Hnot. now apply list_elem_of_fmap_2.
Qed.

Lemma update_cache_twice (n : jsstring) (f : Cache -> Cache) (cs : CacheStorage) :
  (forall c, f (f c) = f c) ->
  update_cache n f (update_cache n f cs) = update_cache n f cs.
Proof.
  intros Hf. unfold update_cache. rewrite <- list_fmap_compose.
  apply list_fmap_ext. intros _ [n' c] _. cbn.
  destruct (bool_decide_reflect (n' = n)) as [->|Hne]; cbn.
  - rewrite bool_decide_eq_true_2 by reflexivity. now rewrite Hf.
  - now rewrite bool_decide_eq_false_2.
Qed.

Lemma has_cache_update (n m : jsstring) (f : Cache -> Cache) (cs : CacheStorage) :
  has_cache n (update_cache m f cs) = has_cache n cs.
Proof. unfold has_cache. now rewrite WorkerFacts.update_cache_names. Qed.

Lemma has_cache_opened (n : jsstring) (cs : CacheStorage) :
  has_cache n (if has_cache n cs then cs else cs ++ [(n, [])]) = true.
Proof. apply bool_decide_eq_true. apply opened_has_cache. Qed.

Lemma filter_name_single (n : jsstring) (cs : CacheStorage) (c : Cache) :
  NoDup (fst <$> cs) -> cache_named n cs = Some c ->
  filter (fun e => fst e = n) cs = [(n, c)].
Proof.
  induction cs as [|[n' c'] cs IH]; [discriminate|].
  rewrite fmap_cons, NoDup_cons. intros [Hnotin Hnd]. cbn [cache_named fst].
  destruct (bool_decide_reflect (n' = n)) as [->|Hne].
  - intros [= ->]. rewrite filter_cons_True by reflexivity. f_equal.
    apply WorkerFacts.filter_none. intros e He Hn. apply Hnotin.
    apply (list_elem_of_fmap_2 fst) in He. cbn [fst]. congruence.
  - intros Hc. rewrite filter_cons_False by exact Hne. now apply IH.
Qed.

Lemma cache_named_filter (n : jsstring) (cs : CacheStorage) :
  cache_named n (filter (fun e => fst e = n) cs) = cache_named n cs.
Proof.
  induction cs as [|[n' c] cs IH]; [reflexivity|].
  destruct (decide (n' = n)) as [->|Hne].
  - rewrite filter_cons_True by reflexivity. cbn [cache_named fst].
    now rewrite bool_decide_eq_true_2.
  - rewrite filter_cons_False by exact Hne. cbn [cache_named fst].
    now rewrite bool_decide_eq_false_2.
Qed.









End LifecycleFacts.

(** ** The rows of the table *)

Module RowFacts.

Lemma filter_id_absent {A} (key : A -> jsstring) (i : jsstring) (l : list A) :
  i ∉ key <$> l -> filter (fun x => key x <> i) l = l.
Proof.
  induction l as [|x l IH]; intros Hi; [reflexivity|].
  rewrite fmap_cons, not_elem_of_cons in Hi. destruct Hi as [Hx Hi].
  rewrite filter_cons_True by congruence. now rewrite IH.
Qed.

Lemma filter_id_gone {A} (key : A -> jsstring) (i : jsstring) (l : list A) :
  i ∉ key <$> filter (fun x => key x <> i) l.
Proof.
  intros Hin. apply list_elem_of_fmap in Hin as (x & -> & Hx).
  apply list_elem_of_filter in Hx as [Hx _]. now apply Hx.
Qed.

Lemma filter_id_length {A} (key : A -> jsstring) (i : jsstring) (l : list A) :
  NoDup (key <$> l) -> i ∈ key <$> l ->
  S (length (filter (fun x => key x <> i) l)) = length l.
Proof.
  induction l as [|x l IH]; intros Hnd Hi.
  - now apply not_elem_of_nil in Hi.
  - rewrite fmap_cons in Hnd, Hi. apply NoDup_cons in Hnd as [Hx Hnd].
    rewrite filter_cons. destruct (decide (key x <> i)) as [Hne|He].
    + apply elem_of_cons in Hi as [Hi|Hi]; [congruence|].
      cbn [length]. now rewrite IH.
    + apply dec_stable in He. subst i. now rewrite filter_id_absent.
Qed.

Lemma drawn_ids_snoc (c : Crypto) (ids : list jsstring) :
  (forall k j, uuid_at c k = uuid_at c j -> k = j) ->
  drawn_ids c ids ->
  drawn_ids {| uuid_at := uuid_at c; drawn := S (drawn c) |} (ids ++ [uuid_at c (drawn c)]).
Proof.
  intros Hinj [Hnd Hold]. split.
  - apply NoDup_app. split; [exact Hnd|]. split; [|apply NoDup_singleton].
    intros i Hi Hi'. apply list_elem_of_singleton in Hi'. subst i.
    destruct (Hold _ Hi) as (k & Hk & Heq). apply Hinj in Heq. lia.
  - intros i Hi. cbn [uuid_at drawn]. apply elem_of_app in Hi as [Hi|Hi].
    + destruct (Hold _ Hi) as (k & Hk & Heq). exists k. split; [lia|exact Heq].
    + apply list_elem_of_singleton in Hi. exists (drawn c). split; [lia|exact Hi].
Qed.

Lemma fmap_sublist {A B} (f : A -> B) (l1 l2 : list A) :
  sublist l1 l2 -> sublist (f <$> l1) (f <$> l2).
Proof. induction 1; cbn; constructor; assumption. Qed.

Lemma drawn_ids_sublist (c : Crypto) (ids ids' : list jsstring) :
  sublist ids' ids -> drawn_ids c ids -> drawn_ids c ids'.
Proof.
  intros Hsub [Hnd Hold]. split.
  - eapply sublist_NoDup; eassumption.
  - intros i Hi. apply Hold. eapply elem_of_sublist; eassumption.
Qed.

Lemma drawn_ids_fresh (c : Crypto) (n : nat) :
  (forall k j, uuid_at c k = uuid_at c j -> k = j) ->
  drawn_ids {| uuid_at := uuid_at c; drawn := drawn c + n |}
            ((fun k => uuid_at c (drawn c + k)) <$> seq 0 n).
Proof.
  intros Hinj. split.
  - apply NoDup_fmap_2_strong; [|apply NoDup_seq].
    intros k j _ _ Hkj. apply Hinj in Hkj. lia.
  - intros i Hi. apply list_elem_of_fmap in Hi as (k & -> & Hk).
    apply elem_of_seq in Hk. cbn [uuid_at drawn]. exists (drawn c + k)%nat.
    split; [lia|reflexivity].
Qed.

Lemma V3_newRows_spec (vans : list jsstring) (c : Crypto) :
  V3.newRows vans c
  = (imap (fun i van =>
             {| V3.id := uuid_at c (drawn c + i); V3.van := van;
                V3.vanOut := []; V3.eWaybill := []; V3.invoice := [] |}) vans,
     {| uuid_at := uuid_at c; drawn := drawn c + length vans |}).
Proof.
  revert c. induction vans as [|van vans IH]; intros c.
  - simpl. destruct c; simpl. now rewrite Nat.add_0_r.
  - cbn [V3.newRows]. unfold randomUUID. rewrite IH. cbn [uuid_at drawn imap length].
    rewrite Nat.add_0_r. f_equal.
    + f_equal. apply imap_ext. intros i x _. cbn. now rewrite Nat.add_succ_r.
    + f_equal. lia.
Qed.

Lemma V3_imap_rows_id (vans : list jsstring) (f : nat -> jsstring) :
  V3.id <$> imap (fun i van =>
                {| V3.id := f i; V3.van := van;
                   V3.vanOut := []; V3.eWaybill := []; V3.invoice := [] |}) vans
  = f <$> seq 0 (length vans).
Proof.
  revert f. induction vans as [|v vs IH]; intros f; [reflexivity|].
  cbn [imap fmap list_fmap length seq]. f_equal.
  etrans; [apply (IH (f ∘ S))|].
  rewrite <- seq_shift, <- list_fmap_compose. reflexivity.
Qed.

End RowFacts.

(** X1. Removing a row by its identifier leaves no row of that identifier
    and keeps the others in their order; the templates are not touched.
    Removing an identifier no row has changes nothing, and among rows of
    distinct identifiers exactly one row goes. *)
Theorem X1_remove_row (i : jsstring) (app : V2.App) :
  let app' := V2.handleRemoveRow i app in
  (i ∉ V2.id <$> V2.rows app')
  /\ sublist (V2.rows app') (V2.rows app)
  /\ (forall row, row ∈ V2.rows app -> V2.id row <> i -> row ∈ V2.rows app')
  /\ V2.templates app' = V2.templates app
  /\ (i ∉ V2.id <$> V2.rows app -> app' = app)
  /\ (NoDup (V2.id <$> V2.rows app) -> i ∈ V2.id <$> V2.rows app ->
      S (length (V2.rows app')) = length (V2.rows app)).
Proof.
  cbn zeta. unfold V2.handleRemoveRow. cbn [V2.rows V2.templates V2.setRows].
  repeat split.
  - apply RowFacts.filter_id_gone.
  - apply sublist_filter.
  - intros row Hrow Hne. apply list_elem_of_filter. auto.
  - intros Hi. rewrite RowFacts.filter_id_absent by exact Hi. now destruct app.
  - apply RowFacts.filter_id_length.
Qed.

Lemma X1_remove_row_witness :
  let app := V2.mkApp short_rows [] in
  let app' := V2.handleRemoveRow (lit "a") app in
  V2.rows app' = [V2.mkRow (lit "b") (lit "CJB-TVL") [] [] (lit "7")]
  /\ S (length (V2.rows app')) = length (V2.rows app).
Proof.
  split; [reflexivity|].
  apply (X1_remove_row (lit "a") (V2.mkApp short_rows [])).
  - apply (bool_decide_unpack _). vm_compute. exact I.
  - apply (bool_decide_unpack _). vm_compute. exact I.
Defined.

Module UpdateFacts.

Lemma update_ids (i : jsstring) (field : V2.Field) (value : jsstring) (app : V2.App) :
  V2.id <$> V2.rows (V2.handleUpdateRow i field value app) = V2.id <$> V2.rows app.
Proof.
  unfold V2.handleUpdateRow. cbn [V2.rows V2.setRows].
  rewrite <- list_fmap_compose. apply list_fmap_ext. intros _ row _. cbn.
  destruct (bool_decide (V2.id row = i)); [now destruct field|reflexivity].
Qed.

Lemma set_field_id field value row : V2.id (V2.set_field field value row) = V2.id row.
Proof. now destruct field. Qed.

Lemma update_absent (i : jsstring) (field : V2.Field) (value : jsstring)
    (rows : list V2.RowData) :
  i ∉ V2.id <$> rows ->
  (fun row => if bool_decide (V2.id row = i) then V2.set_field field value row else row)
    <$> rows = rows.
Proof.
  induction rows as [|row rows IH]; intros Hi; [reflexivity|].
  rewrite fmap_cons, not_elem_of_cons in Hi. destruct Hi as [Hne Hi].
  cbn [fmap list_fmap]. rewrite bool_decide_eq_false_2 by congruence.
  f_equal. now apply IH.
Qed.

End UpdateFacts.

(** X2. Writing a cell keeps the rows in place: the identifiers, and with
    them the number and order of the rows, stay, and so do the templates
    and every column but the written one.  In the rows of the identifier
    the written column holds the new value; when no row has the
    identifier nothing changes. *)
Theorem X2_update_row_frame (i : jsstring) (field : V2.Field) (value : jsstring)
    (app : V2.App) :
  let app' := V2.handleUpdateRow i field value app in
  let column (f : V2.Field) : V2.RowData -> jsstring :=
    match f with
    | V2.f_van => V2.van
    | V2.f_vanOut => V2.vanOut
    | V2.f_eWaybill => V2.eWaybill
    | V2.f_invoice => V2.invoice
    end in
  V2.id <$> V2.rows app' = V2.id <$> V2.rows app
  /\ V2.templates app' = V2.templates app
  /\ (forall f, f <> field -> column f <$> V2.rows app' = column f <$> V2.rows app)
  /\ (forall row, row ∈ V2.rows app' -> V2.id row = i -> column field row = value)
  /\ (forall row, row ∈ V2.rows app -> V2.id row <> i -> row ∈ V2.rows app')
  /\ (i ∉ V2.id <$> V2.rows app -> app' = app).
Proof.
  cbn zeta. split; [apply UpdateFacts.update_ids|]. split; [reflexivity|].
  unfold V2.handleUpdateRow. cbn [V2.rows V2.templates V2.setRows]. repeat split.
  - intros f Hf. rewrite <- list_fmap_compose. apply list_fmap_ext. intros _ row _. cbn.
    destruct (bool_decide (V2.id row = i)); [|reflexivity].
    destruct f, field; try reflexivity; congruence.
  - intros row Hrow Hid. apply list_elem_of_fmap in Hrow as (row0 & -> & _).
    destruct (bool_decide_reflect (V2.id row0 = i)) as [_|Hne].
    + now destruct field.
    + congruence.
  - intros row Hrow Hne. apply list_elem_of_fmap. exists row. split; [|exact Hrow].
    now rewrite bool_decide_eq_false_2.
  - intros Hi. rewrite UpdateFacts.update_absent by exact Hi. now destruct app.
Qed.

(** X3. Two writes to the same cell: the second one counts.  Writes to
    different columns, or to rows of different identifiers, can be made in
    either order. *)
Theorem X3_update_row_compose (i j : jsstring) (f g : V2.Field) (v w : jsstring)
    (app : V2.App) :
  V2.handleUpdateRow i f w (V2.handleUpdateRow i f v app) = V2.handleUpdateRow i f w app
  /\ (f <> g \/ i <> j ->
      V2.handleUpdateRow j g w (V2.handleUpdateRow i f v app)
      = V2.handleUpdateRow i f v (V2.handleUpdateRow j g w app)).
Proof.
  unfold V2.handleUpdateRow, V2.setRows. cbn [V2.rows V2.templates]. split.
  - f_equal. rewrite <- list_fmap_compose. apply list_fmap_ext. intros _ row _. cbn.
    destruct (bool_decide_reflect (V2.id row = i)) as [Hi|Hi].
    + rewrite UpdateFacts.set_field_id, bool_decide_eq_true_2 by exact Hi.
      now destruct f.
    + now rewrite bool_decide_eq_false_2.
  - intros Hne. f_equal. rewrite <- !list_fmap_compose. apply list_fmap_ext.
    intros _ row _. cbn.
    destruct (bool_decide_reflect (V2.id row = i)) as [Hi|Hi],
             (bool_decide_reflect (V2.id row = j)) as [Hj|Hj];
      rewrite ?UpdateFacts.set_field_id;
      rewrite ?(bool_decide_eq_true_2 _ Hi), ?(bool_decide_eq_true_2 _ Hj),
              ?(bool_decide_eq_false_2 _ Hi), ?(bool_decide_eq_false_2 _ Hj);
      try reflexivity.
    all: destruct Hne as [Hfg|Hij]; [|congruence].
    all: destruct f, g; try reflexivity; congruence.
Qed.

Lemma X3_update_row_compose_witness :
  let app := V2.mkApp short_rows [] in
  V2.handleUpdateRow (lit "a") V2.f_van (lit "y")
    (V2.handleUpdateRow (lit "a") V2.f_van (lit "x") app)
  = V2.handleUpdateRow (lit "a") V2.f_van (lit "y") app
  /\ V2.handleUpdateRow (lit "b") V2.f_van (lit "y")
       (V2.handleUpdateRow (lit "a") V2.f_van (lit "x") app)
     = V2.handleUpdateRow (lit "a") V2.f_van (lit "x")
         (V2.handleUpdateRow (lit "b") V2.f_van (lit "y") app).
Proof.
  split.
  - apply (X3_update_row_compose (lit "a") (lit "b") V2.f_van V2.f_van (lit "x") (lit "y")).
  - apply (X3_update_row_compose (lit "a") (lit "b") V2.f_van V2.f_van (lit "x") (lit "y")).
    right. discriminate.
Defined.

(** X4. A row added with an identifier no row has yet is the last row and
    is blank; removing it by its identifier gives back the table as it
    was. *)
Theorem X4_add_then_remove_row (app : V2.App) (c : Crypto) :
  uuid_at c (drawn c) ∉ V2.id <$> V2.rows app ->
  let '(app1, c1) := V2.handleAddRow app c in
  V2.rows app1
  = V2.rows app ++ [{| V2.id := uuid_at c (drawn c); V2.van := []; V2.vanOut := [];
                       V2.eWaybill := []; V2.invoice := [] |}]
  /\ drawn c1 = S (drawn c)
  /\ V2.handleRemoveRow (uuid_at c (drawn c)) app1 = app.
Proof.
  intros Hfresh. unfold V2.handleAddRow, randomUUID, V2.handleRemoveRow, V2.setRows.
  cbn [V2.rows V2.templates drawn]. repeat split.
  rewrite filter_app, (RowFacts.filter_id_absent V2.id) by exact Hfresh.
  rewrite filter_cons_False, filter_nil, app_nil_r by (cbn; tauto).
  now destruct app.
Qed.

Lemma X4_add_then_remove_row_witness :
  let app := V2.mkApp short_rows [] in
  let '(app1, c1) := V2.handleAddRow app sample_crypto in
  V2.rows app1
  = short_rows ++ [V2.mkRow (lit "111") [] [] [] []]
  /\ drawn c1 = 3%nat
  /\ V2.handleRemoveRow (lit "111") app1 = app.
Proof.
  apply (X4_add_then_remove_row (V2.mkApp short_rows []) sample_crypto).
  apply (bool_decide_unpack _). vm_compute. exact I.
Defined.

(** X5. Row identifiers stay pairwise distinct.  With a generator that
    never repeats an identifier, if the rows carry distinct identifiers
    drawn earlier, then so they do after adding an item, duplicating a row
    or the last row, removing a row, loading a template and clearing the
    table. *)
Theorem X5_row_ids_stay_distinct (app : V3.App) (c : Crypto) :
  (forall k j, uuid_at c k = uuid_at c j -> k = j) ->
  drawn_ids c (V3.id <$> V3.rows app) ->
  (forall form,
     let '(_, app', c') := V3.handleAddItem form app c in
     drawn_ids c' (V3.id <$> V3.rows app'))
  /\ (forall row,
        let '(app', c') := V3.handleDuplicateRow row app c in
        drawn_ids c' (V3.id <$> V3.rows app'))
  /\ (let '(app', c') := V3.handleDuplicateLast app c in
      drawn_ids c' (V3.id <$> V3.rows app'))
  /\ (forall i, drawn_ids c (V3.id <$> V3.rows (V3.handleRemoveRow i app)))
  /\ (forall templateName confirm,
        let '(app', _, c') := V3.handleLoadTemplate templateName confirm app c in
        drawn_ids c' (V3.id <$> V3.rows app'))
  /\ (forall confirm, drawn_ids c (V3.id <$> V3.rows (V3.handleClearTable confirm app))).
Proof.
  intros Hinj Hids.
  assert (Hdup : forall row,
             let '(app', c') := V3.handleDuplicateRow row app c in
             drawn_ids c' (V3.id <$> V3.rows app')).
  { intros row. unfold V3.handleDuplicateRow, randomUUID. cbn [V3.rows V3.setRows].
    rewrite fmap_app. now apply RowFacts.drawn_ids_snoc. }
  split; [|split; [|split; [|split; [|split]]]].
  - intros form. unfold V3.handleAddItem.
    destruct (V3.is_empty _ && _ && _ && _); [exact Hids|].
    unfold randomUUID. cbn [V3.rows V3.setRows]. rewrite fmap_app.
    now apply RowFacts.drawn_ids_snoc.
  - exact Hdup.
  - unfold V3.handleDuplicateLast. destruct (last (V3.rows app)); [apply Hdup|exact Hids].
  - intros i. unfold V3.handleRemoveRow. cbn [V3.rows V3.setRows].
    eapply RowFacts.drawn_ids_sublist; [|exact Hids].
    apply RowFacts.fmap_sublist, sublist_filter.
  - intros templateName confirm. unfold V3.handleLoadTemplate.
    destruct templateName as [|ch rest]; [exact Hids|].
    destruct (_ && _); [exact Hids|].
    destruct (V3.findTemplate _ _) as [template|]; [|exact Hids].
    rewrite RowFacts.V3_newRows_spec. cbn [V3.rows V3.setRows].
    rewrite (RowFacts.V3_imap_rows_id _ (fun k => uuid_at c (drawn c + k))).
    now apply RowFacts.drawn_ids_fresh.
  - intros [|]; unfold V3.handleClearTable; [|exact Hids].
    cbn. split; [constructor|]. intros i Hi. now apply not_elem_of_nil in Hi.
Qed.

Lemma X5_row_ids_stay_distinct_witness :
  drawn_ids sample_crypto (V3.id <$> drawn_rows3)
  /\ (let '(_, app', c') :=
        V3.handleAddItem sample_form (V3.mkApp drawn_rows3 []) sample_crypto in
      drawn_ids c' (V3.id <$> V3.rows app')).
Proof.
  assert (Hinj : forall k j, uuid_at sample_crypto k = uuid_at sample_crypto j -> k = j).
  { intros k j H. cbn in H. injection H as H.
    apply (f_equal length) in H. rewrite !length_replicate in H. exact H. }
  assert (Hids : drawn_ids sample_crypto (V3.id <$> drawn_rows3)).
  { split.
    - apply (bool_decide_unpack _). vm_compute. exact I.
    - intros i Hi. cbn in Hi. apply elem_of_cons in Hi as [->|Hi]; [exists 0%nat; split; [cbn; lia|reflexivity]|].
      apply list_elem_of_singleton in Hi as ->. exists 1%nat. split; [cbn; lia|reflexivity]. }
  split; [exact Hids|].
  apply (X5_row_ids_stay_distinct (V3.mkApp drawn_rows3 []) sample_crypto Hinj Hids).
Defined.

(** ** Strings, the entry form and the time column *)

Module StringFacts.

Lemma slice_0 (n : nat) (s : jsstring) : slice 0 (Z.of_nat n) s = take n s.
Proof.
  unfold slice, relative_index. cbn [Z.ltb Z.compare].
  assert ((Z.of_nat n <? 0)%Z = false) as -> by (apply Z.ltb_ge; lia).
  rewrite (Z.min_l 0) by lia. change (drop (Z.to_nat 0) s) with s. rewrite Z.sub_0_r.
  destruct (decide (n <= length s)%nat).
  - rewrite Z.min_l by lia. now rewrite Nat2Z.id.
  - rewrite Z.min_r by lia. rewrite Nat2Z.id. rewrite !take_ge by lia. reflexivity.
Qed.

Lemma slice_from_nat (n : nat) (s : jsstring) :
  (n <= length s)%nat -> slice_from (Z.of_nat n) s = drop n s.
Proof.
  intros Hn. unfold slice_from, slice, relative_index.
  assert ((Z.of_nat n <? 0)%Z = false) as -> by (apply Z.ltb_ge; lia).
  assert ((Z.of_nat (length s) <? 0)%Z = false) as -> by (apply Z.ltb_ge; lia).
  rewrite Z.min_l by lia. rewrite Z.min_l by lia. rewrite Nat2Z.id.
  apply take_ge. rewrite length_drop. lia.
Qed.

Lemma slice_from_last2 (l : jsstring) (a b : N) :
  slice_from (-2) (l ++ [a; b]) = [a; b].
Proof.
  unfold slice_from, slice, relative_index. rewrite length_app. cbn [length].
  change (-2 <? 0)%Z with true. cbv iota.
  assert ((Z.of_nat (length l + 2) <? 0)%Z = false) as -> by (apply Z.ltb_ge; lia).
  rewrite Z.max_l by lia. rewrite Z.min_l by lia.
  replace (Z.to_nat (Z.of_nat (length l + 2) + -2)) with (length l) by lia.
  rewrite drop_app_length. apply take_ge. cbn. lia.
Qed.

Lemma padStart_long (n : nat) (pad s : jsstring) :
  (n <= length s)%nat -> padStart n pad s = s.
Proof.
  intros Hn. unfold padStart. replace (n - length s)%nat with 0%nat by lia.
  reflexivity.
Qed.

Lemma padStart_2_one (c : N) : padStart 2 (lit "0") [c] = [0x30; c].
Proof. reflexivity. Qed.

Lemma digit_not_trimmed (c : N) : isDecimalDigit c = true -> isTrimmed c = false.
Proof.
  unfold isDecimalDigit, isTrimmed, isWhiteSpace, isLineTerminator.
  rewrite andb_true_iff, !N.leb_le. intros [H1 H2].
  repeat match goal with
  | |- context [?x =? ?y] => destruct (N.eqb_spec x y); [lia|]
  end.
  destruct (N.leb_spec 0x2000 c); [lia|]. reflexivity.
Qed.

Lemma trimStart_keep (c : N) (s : jsstring) :
  isTrimmed c = false -> trimStart (c :: s) = c :: s.
Proof. intros H. cbn [trimStart]. now rewrite H. Qed.

(** A string that begins and ends with a character [trim] does not remove
    is left as it is. *)
Lemma trim_keep (c d : N) (s : jsstring) :
  isTrimmed c = false -> isTrimmed d = false ->
  trim (c :: s ++ [d]) = c :: s ++ [d].
Proof.
  intros Hc Hd. unfold trim, trimEnd. rewrite trimStart_keep by exact Hc.
  replace (rev (c :: s ++ [d])) with (d :: rev (c :: s)).
  2: { change (c :: s ++ [d]) with ((c :: s) ++ [d]). now rewrite rev_app_distr. }
  rewrite trimStart_keep by exact Hd.
  change (rev (d :: rev (c :: s))) with (rev (rev (c :: s)) ++ [d]).
  now rewrite rev_involutive.
Qed.

Lemma dots_to_colons_digits (s : jsstring) :
  forallb isDecimalDigit s = true -> V2.dots_to_colons s = s.
Proof.
  unfold V2.dots_to_colons. induction s as [|c s IH]; [reflexivity|].
  cbn [forallb]. rewrite andb_true_iff. intros [Hc Hs]. cbn [fmap list_fmap].
  rewrite IH by exact Hs. f_equal.
  unfold isDecimalDigit in Hc. rewrite andb_true_iff, !N.leb_le in Hc.
  destruct (N.eqb_spec c 0x2E); [lia|reflexivity].
Qed.

Lemma normalizeTime_nonempty (clockTime : jsstring -> option jsstring)
    (input : jsstring) :
  input <> [] ->
  V2.normalizeTime clockTime input
  = let clean := V2.dots_to_colons (trim input) in
    let clean :=
      if V2.three_or_four_digits clean then
        let len := Z.of_nat (length clean) in
        slice 0 (len - 2) clean ++ lit ":" ++ slice_from (len - 2) clean
      else clean in
    match clockTime (lit "1/1/2000 " ++ clean) with
    | Some formatted => formatted
    | None => input
    end.
Proof. destruct input; [congruence|reflexivity]. Qed.

End StringFacts.

Module FormFacts.

Lemma minutes_sanitized (value : jsstring) (form : V3.Form) :
  V3.tMin (V3.handleMinutesChange value form) = take 2 (filter (fun c => isDecimalDigit c = true) value).
Proof.
  unfold V3.handleMinutesChange, V3.setTMin. cbn [V3.tMin].
  change 2%Z with (Z.of_nat 2). apply StringFacts.slice_0.
Qed.

Lemma sanitized_digits (value : jsstring) :
  Forall (fun c => isDecimalDigit c = true) (take 2 (filter (fun c => isDecimalDigit c = true) value)).
Proof.
  apply Forall_take, Forall_forall. intros c Hc.
  now apply list_elem_of_filter in Hc as [Hc _].
Qed.

Lemma sanitized_length (value : jsstring) : (length (take 2 (filter (fun c => isDecimalDigit c = true) value)) <= 2)%nat.
Proof. rewrite length_take. lia. Qed.

Lemma sanitized_keep (value : jsstring) :
  Forall (fun c => isDecimalDigit c = true) value -> (length value <= 2)%nat ->
  take 2 (filter (fun c => isDecimalDigit c = true) value) = value.
Proof.
  intros Hd Hl.
  rewrite WorkerFacts.filter_all by (intros c Hc; rewrite Forall_forall in Hd; auto).
  now apply take_ge.
Qed.

Lemma formattedTime_empty (form : V3.Form) :
  V3.is_empty (V3.formattedTime form) = V3.is_empty (V3.tHour form).
Proof. unfold V3.formattedTime. now destruct (V3.tHour form). Qed.

Lemma is_empty_true (s : jsstring) : V3.is_empty s = true <-> s = [].
Proof. destruct s; cbn; split; congruence. Qed.

End FormFacts.

(** X6. The form is taken for empty, and submitting it changes nothing,
    exactly when the van, the hour, the waybill and the invoice are all
    empty: minutes without an hour do not count.  Otherwise one row is
    added at the end with the next identifier and the values of the form,
    and the form is cleared, back to PM. *)
Theorem X6_add_item (form : V3.Form) (app : V3.App) (c : Crypto) :
  let blank :=
    V3.newVan form = [] /\ V3.tHour form = []
    /\ V3.newEWaybill form = [] /\ V3.newInvoice form = [] in
  (blank -> V3.handleAddItem form app c = (form, app, c))
  /\ (~ blank ->
      V3.handleAddItem form app c
      = (V3.mkForm [] [] [] (lit "PM") [] [],
         V3.setRows
           (V3.rows app
              ++ [{| V3.id := uuid_at c (drawn c); V3.van := V3.newVan form;
                     V3.vanOut := V3.formattedTime form;
                     V3.eWaybill := V3.newEWaybill form;
                     V3.invoice := V3.newInvoice form |}]) app,
         {| uuid_at := uuid_at c; drawn := S (drawn c) |}))
  /\ (V3.formattedTime form = [] <-> V3.tHour form = []).
Proof.
  cbn zeta. unfold V3.handleAddItem. rewrite FormFacts.formattedTime_empty.
  split; [|split].
  - intros (-> & -> & -> & ->). reflexivity.
  - intros Hnot.
    destruct (V3.is_empty (V3.newVan form) && V3.is_empty (V3.tHour form)
              && V3.is_empty (V3.newEWaybill form) && V3.is_empty (V3.newInvoice form))
      eqn:E; [|reflexivity].
    rewrite !andb_true_iff, !FormFacts.is_empty_true in E. tauto.
  - rewrite <- !FormFacts.is_empty_true. now rewrite FormFacts.formattedTime_empty.
Qed.

Lemma X6_add_item_witness :
  V3.handleAddItem (V3.mkForm [] [] (lit "30") (lit "AM") [] [])
                   (V3.mkApp drawn_rows3 []) sample_crypto
  = (V3.mkForm [] [] (lit "30") (lit "AM") [] [], V3.mkApp drawn_rows3 [], sample_crypto)
  /\ V3.handleAddItem sample_form (V3.mkApp drawn_rows3 []) sample_crypto
     = (V3.mkForm [] [] [] (lit "PM") [] [],
        V3.mkApp (drawn_rows3
                    ++ [V3.mkRow (lit "111") (lit "CJB-MAA") (lit "6:05 AM") [] (lit "12")]) [],
        {| uuid_at := uuid_at sample_crypto; drawn := 3 |}).
Proof.
  split.
  - apply (X6_add_item (V3.mkForm [] [] (lit "30") (lit "AM") [] [])). repeat split.
  - apply (X6_add_item sample_form (V3.mkApp drawn_rows3 []) sample_crypto).
    intros (H & _). discriminate H.
Defined.

(** X7. The minutes field holds the first two decimal digits of what was
    typed and nothing else: at most two characters, all of them digits.
    What it holds is kept when typed again, and one or two digits are kept
    as typed.  The other fields of the form are not touched. *)
Theorem X7_minutes_field (value : jsstring) (form : V3.Form) :
  let form' := V3.handleMinutesChange value form in
  V3.tMin form' = take 2 (filter (fun c => isDecimalDigit c = true) value)
  /\ Forall (fun c => isDecimalDigit c = true) (V3.tMin form')
  /\ (length (V3.tMin form') <= 2)%nat
  /\ V3.handleMinutesChange (V3.tMin form') form' = form'
  /\ (Forall (fun c => isDecimalDigit c = true) value -> (length value <= 2)%nat ->
      V3.tMin form' = value)
  /\ (V3.newVan form', V3.tHour form', V3.tAmPm form', V3.newEWaybill form',
      V3.newInvoice form')
     = (V3.newVan form, V3.tHour form, V3.tAmPm form, V3.newEWaybill form,
        V3.newInvoice form).
Proof.
  cbn zeta. rewrite !FormFacts.minutes_sanitized.
  split; [reflexivity|].
  split; [apply FormFacts.sanitized_digits|].
  split; [apply FormFacts.sanitized_length|].
  split; [|split; [apply FormFacts.sanitized_keep|reflexivity]].
  unfold V3.handleMinutesChange, V3.setTMin. cbn [V3.tMin V3.newVan V3.tHour
    V3.tAmPm V3.newEWaybill V3.newInvoice]. f_equal.
  change 2%Z with (Z.of_nat 2). rewrite !StringFacts.slice_0.
  apply FormFacts.sanitized_keep;
    [apply FormFacts.sanitized_digits|apply FormFacts.sanitized_length].
Qed.

Lemma X7_minutes_field_witness :
  V3.tMin (V3.handleMinutesChange (lit "4x5:6") sample_form) = lit "45"
  /\ V3.tMin (V3.handleMinutesChange (lit "07") sample_form) = lit "07".
Proof.
  split.
  - apply (X7_minutes_field (lit "4x5:6") sample_form).
  - apply (X7_minutes_field (lit "07") sample_form).
    + repeat constructor.
    + cbn. lia.
Defined.

(** X8. The time of the new row.  Without an hour it is empty, whatever
    the minutes field holds.  With an hour chosen it is the hour, a colon,
    exactly two digits of minutes, a blank and AM or PM as chosen,
    whatever was typed into the minutes field: no minutes give 00, one
    digit gets a leading zero. *)
Theorem X8_time_text (value : jsstring) (form : V3.Form) :
  let form' := V3.handleMinutesChange value form in
  (V3.tHour form = [] -> V3.formattedTime form' = [])
  /\ (V3.tHour form <> [] ->
      exists mm,
        V3.formattedTime form'
        = V3.tHour form ++ lit ":" ++ mm ++ lit " " ++ V3.tAmPm form
        /\ length mm = 2%nat
        /\ Forall (fun c => isDecimalDigit c = true) mm
        /\ mm = match V3.tMin form' with
                | [] => lit "00"
                | [d] => [0x30; d]
                | _ => V3.tMin form'
                end).
Proof.
  cbn zeta. unfold V3.formattedTime.
  pose proof (FormFacts.minutes_sanitized value form) as Hmin.
  pose proof (FormFacts.sanitized_digits value) as Hd.
  pose proof (FormFacts.sanitized_length value) as Hl.
  rewrite <- Hmin in Hd, Hl.
  assert (Hhour : V3.tHour (V3.handleMinutesChange value form) = V3.tHour form)
    by reflexivity.
  assert (Hap : V3.tAmPm (V3.handleMinutesChange value form) = V3.tAmPm form)
    by reflexivity.
  rewrite Hhour, Hap. split; [now intros ->|]. intros Hh.
  destruct (V3.tHour form) as [|h hs]; [congruence|].
  destruct (V3.tMin (V3.handleMinutesChange value form)) as [|a [|b [|x m]]].
  - exists (lit "00"). repeat split. repeat constructor.
  - exists [0x30; a]. repeat split. constructor; [reflexivity|exact Hd].
  - exists [a; b]. repeat split. exact Hd.
  - cbn in Hl. lia.
Qed.

Lemma X8_time_text_witness :
  V3.formattedTime (V3.handleMinutesChange (lit "5") sample_form) = lit "6:05 AM"
  /\ V3.formattedTime
       (V3.handleMinutesChange (lit "5") (V3.mkForm [] [] [] (lit "PM") [] []))
     = []
  /\ exists mm,
       V3.formattedTime (V3.handleMinutesChange (lit "5") sample_form)
       = V3.tHour sample_form ++ lit ":" ++ mm ++ lit " " ++ V3.tAmPm sample_form
       /\ length mm = 2%nat
       /\ Forall (fun c => isDecimalDigit c = true) mm
       /\ mm = match V3.tMin (V3.handleMinutesChange (lit "5") sample_form) with
               | [] => lit "00"
               | [d] => [0x30; d]
               | _ => V3.tMin (V3.handleMinutesChange (lit "5") sample_form)
               end.
Proof.
  split; [reflexivity|]. split.
  - apply (X8_time_text (lit "5") (V3.mkForm [] [] [] (lit "PM") [] [])). reflexivity.
  - apply (X8_time_text (lit "5") sample_form). discriminate.
Defined.

(** X9. Duplicating the last row does nothing on an empty table.
    Otherwise the table grows by one row at the end, which has the next
    identifier and, column by column, the values of the row that was
    last; the rows there were stay. *)
Theorem X9_duplicate_last (app : V3.App) (c : Crypto) :
  let '(app', c') := V3.handleDuplicateLast app c in
  match last (V3.rows app) with
  | None => V3.rows app = [] /\ app' = app /\ c' = c
  | Some row =>
      exists row',
        V3.rows app' = V3.rows app ++ [row']
        /\ V3.id row' = uuid_at c (drawn c)
        /\ (V3.van row', V3.vanOut row', V3.eWaybill row', V3.invoice row')
           = (V3.van row, V3.vanOut row, V3.eWaybill row, V3.invoice row)
        /\ drawn c' = S (drawn c)
        /\ V3.templates app' = V3.templates app
  end.
Proof.
  unfold V3.handleDuplicateLast.
  destruct (last (V3.rows app)) as [row|] eqn:Hlast.
  - unfold V3.handleDuplicateRow, randomUUID. cbn [V3.rows V3.templates V3.setRows drawn].
    eexists. repeat split.
  - apply last_None in Hlast. auto.
Qed.

(** X10. The time typed into a row is handed to the browser and written
    to the [vanOut] column of the rows of that identifier, and to nothing
    else, whatever the browser makes of it: identifiers, the other
    columns and the templates stay. *)
Theorem X10_time_blur_frame (clockTime : jsstring -> option jsstring)
    (i value : jsstring) (app : V2.App) :
  let app' := V2.handleTimeBlur clockTime i value app in
  V2.id <$> V2.rows app' = V2.id <$> V2.rows app
  /\ V2.van <$> V2.rows app' = V2.van <$> V2.rows app
  /\ V2.eWaybill <$> V2.rows app' = V2.eWaybill <$> V2.rows app
  /\ V2.invoice <$> V2.rows app' = V2.invoice <$> V2.rows app
  /\ V2.templates app' = V2.templates app
  /\ (forall row, row ∈ V2.rows app' -> V2.id row = i ->
        V2.vanOut row = V2.normalizeTime clockTime value)
  /\ (forall row, row ∈ V2.rows app -> V2.id row <> i -> row ∈ V2.rows app').
Proof.
  cbn zeta. unfold V2.handleTimeBlur, V2.handleUpdateRow.
  cbn [V2.rows V2.templates V2.setRows].
  assert (Hcol : forall col : V2.RowData -> jsstring,
            (forall v row, col (V2.set_field V2.f_vanOut v row) = col row) ->
            col <$> ((fun row => if bool_decide (V2.id row = i)
                                 then V2.set_field V2.f_vanOut
                                        (V2.normalizeTime clockTime value) row
                                 else row) <$> V2.rows app)
            = col <$> V2.rows app).
  { intros col Hcol. rewrite <- list_fmap_compose. apply list_fmap_ext.
    intros _ row _. cbn. destruct (bool_decide (V2.id row = i)); [apply Hcol|reflexivity]. }
  repeat split; try (apply Hcol; reflexivity).
  - intros row Hrow Hid. apply list_elem_of_fmap in Hrow as (row0 & -> & _).
    destruct (bool_decide_reflect (V2.id row0 = i)) as [_|Hne]; [reflexivity|].
    cbn in Hid. congruence.
  - intros row Hrow Hne. apply list_elem_of_fmap. exists row. split; [|exact Hrow].
    now rewrite bool_decide_eq_false_2.
Qed.

(** X11. [normalizeTime] gives the empty string for the empty string.  For
    any other input it gives either what the browser formatted or the
    input exactly as typed, blanks and dots included, never the text it
    cleaned; so when the browser reads no time at all the input comes
    back unchanged. *)
Theorem X11_normalize_time_fallback (clockTime : jsstring -> option jsstring)
    (input : jsstring) :
  V2.normalizeTime clockTime [] = []
  /\ (V2.normalizeTime clockTime input = input
      \/ exists text, clockTime text = Some (V2.normalizeTime clockTime input))
  /\ ((forall text, clockTime text = None) -> V2.normalizeTime clockTime input = input).
Proof.
  split; [reflexivity|]. unfold V2.normalizeTime.
  destruct input as [|ch rest]; [split; [now left|reflexivity]|].
  match goal with |- context [clockTime ?t] => destruct (clockTime t) as [f|] eqn:E end.
  - split; [right; eauto|]. intros Hnone. rewrite Hnone in E. discriminate.
  - split; [now left|reflexivity].
Qed.

(** X12. A time typed as three or four digits is read as hours and two
    digits of minutes: the browser is asked about the same text as for the
    spelling with a colon, and for the spelling with a dot.  When it can
    read that text, the three spellings give the same result. *)
Theorem X12_normalize_time_digits (clockTime : jsstring -> option jsstring)
    (h m : jsstring) (formatted : jsstring) :
  forallb isDecimalDigit h = true -> (1 <= length h <= 2)%nat ->
  forallb isDecimalDigit m = true -> length m = 2%nat ->
  clockTime (lit "1/1/2000 " ++ h ++ lit ":" ++ m) = Some formatted ->
  V2.normalizeTime clockTime (h ++ m) = formatted
  /\ V2.normalizeTime clockTime (h ++ lit ":" ++ m) = formatted
  /\ V2.normalizeTime clockTime (h ++ lit "." ++ m) = formatted.
Proof.
  intros Hh Hlh Hm Hlm Hclock.
  destruct h as [|h1 hs]; [cbn in Hlh; lia|].
  destruct m as [|m1 [|m2 [|x m]]]; try discriminate Hlm.
  assert (Hh1 : isTrimmed h1 = false).
  { apply StringFacts.digit_not_trimmed. cbn in Hh. now apply andb_true_iff in Hh. }
  assert (Hm1 : isDecimalDigit m1 = true) by (cbn in Hm; now apply andb_true_iff in Hm).
  assert (Hm2' : isDecimalDigit m2 = true).
  { cbn in Hm. apply andb_true_iff in Hm as [_ Hm]. now apply andb_true_iff in Hm. }
  assert (Hm2 : isTrimmed m2 = false) by now apply StringFacts.digit_not_trimmed.
  assert (Hall : forallb isDecimalDigit ((h1 :: hs) ++ [m1; m2]) = true).
  { rewrite forallb_app, Hh. cbn. now rewrite Hm1, Hm2'. }
  assert (Hd : forall d, isDecimalDigit d = true -> (d =? 0x2E) = false).
  { intros d Hd. unfold isDecimalDigit in Hd. rewrite andb_true_iff, !N.leb_le in Hd.
    apply N.eqb_neq. lia. }
  assert (Hcolon : forall (sep : N), sep = 0x2E \/ sep = 0x3A ->
            V2.dots_to_colons ((h1 :: hs) ++ sep :: [m1; m2])
            = (h1 :: hs) ++ 0x3A :: [m1; m2]).
  { intros sep Hsep. unfold V2.dots_to_colons. rewrite fmap_app.
    fold (V2.dots_to_colons (h1 :: hs)).
    rewrite StringFacts.dots_to_colons_digits by exact Hh.
    f_equal. cbn [fmap list_fmap]. rewrite (Hd m1 Hm1), (Hd m2 Hm2').
    destruct Hsep as [->| ->]; reflexivity. }
  assert (Hnot : V2.three_or_four_digits ((h1 :: hs) ++ 0x3A :: [m1; m2]) = false).
  { unfold V2.three_or_four_digits. rewrite forallb_app. cbn [forallb].
    change (isDecimalDigit 0x3A) with false. cbn [andb]. now rewrite andb_false_r. }
  assert (Hkeep : forall mid, trim ((h1 :: hs) ++ mid ++ [m2]) = (h1 :: hs) ++ mid ++ [m2]).
  { intros mid. cbn [app]. rewrite app_assoc. now apply StringFacts.trim_keep. }
  split; [|split].
  - rewrite StringFacts.normalizeTime_nonempty by discriminate. cbn zeta.
    change ((h1 :: hs) ++ [m1; m2]) with ((h1 :: hs) ++ [m1] ++ [m2]).
    rewrite (Hkeep [m1]).
    change ((h1 :: hs) ++ [m1] ++ [m2]) with ((h1 :: hs) ++ [m1; m2]).
    rewrite StringFacts.dots_to_colons_digits by exact Hall.
    assert (Hlen : length ((h1 :: hs) ++ [m1; m2]) = (length (h1 :: hs) + 2)%nat)
      by (rewrite length_app; reflexivity).
    assert (V2.three_or_four_digits ((h1 :: hs) ++ [m1; m2]) = true) as ->.
    { unfold V2.three_or_four_digits. rewrite Hall, Hlen. cbn [andb].
      apply andb_true_iff. split; apply Nat.leb_le; lia. }
    replace (Z.of_nat (length ((h1 :: hs) ++ [m1; m2])) - 2)%Z
      with (Z.of_nat (length (h1 :: hs))) by lia.
    rewrite StringFacts.slice_0, StringFacts.slice_from_nat by lia.
    rewrite take_app_length, drop_app_length.
    now rewrite Hclock.
  - rewrite StringFacts.normalizeTime_nonempty by discriminate. cbn zeta.
    change (lit ":" ++ [m1; m2]) with ([0x3A; m1] ++ [m2]).
    rewrite (Hkeep [0x3A; m1]).
    change ((h1 :: hs) ++ [0x3A; m1] ++ [m2]) with ((h1 :: hs) ++ 0x3A :: [m1; m2]).
    rewrite Hcolon by now right. rewrite Hnot.
    change (0x3A :: [m1; m2]) with (lit ":" ++ [m1; m2]). now rewrite Hclock.
  - rewrite StringFacts.normalizeTime_nonempty by discriminate. cbn zeta.
    change (lit "." ++ [m1; m2]) with ([0x2E; m1] ++ [m2]).
    rewrite (Hkeep [0x2E; m1]).
    change ((h1 :: hs) ++ [0x2E; m1] ++ [m2]) with ((h1 :: hs) ++ 0x2E :: [m1; m2]).
    rewrite Hcolon by now left. rewrite Hnot.
    change (0x3A :: [m1; m2]) with (lit ":" ++ [m1; m2]). now rewrite Hclock.
Qed.

Lemma X12_normalize_time_digits_witness :
  V2.normalizeTime sample_clock (lit "630") = lit "6:30 AM"
  /\ V2.normalizeTime sample_clock (lit "6:30") = lit "6:30 AM"
  /\ V2.normalizeTime sample_clock (lit "6.30") = lit "6:30 AM".
Proof.
  apply (X12_normalize_time_digits sample_clock (lit "6") (lit "30") (lit "6:30 AM"));
    try reflexivity.
  cbn. lia.
Defined.

(** ** Dates *)

Module DateFacts.

Lemma decimal_small (n : N) : n < 10 -> decimal n = [0x30 + n].
Proof.
  intros Hn. unfold decimal. cbn [decimal_rev].
  destruct (N.ltb_spec n 10); [reflexivity|lia].
Qed.

(** From ten on, the last two characters are the tens and the units. *)
Lemma decimal_large (n : N) :
  10 <= n ->
  exists l, decimal n = l ++ [0x30 + (n / 10) mod 10; 0x30 + n mod 10]
            /\ (n < 100 -> l = []).
Proof.
  intros Hn. unfold decimal.
  assert (Hlog : 3 <= N.log2 n).
  { change 3 with (N.log2 8). apply N.log2_le_mono. lia. }
  destruct (N.to_nat (N.log2 n)) as [|f] eqn:Hf; [lia|].
  cbn [decimal_rev].
  destruct (N.ltb_spec n 10); [lia|].
  destruct (N.ltb_spec (n / 10) 10) as [Hs|Hs].
  - exists []. split; [|reflexivity]. cbn [rev app].
    now rewrite (N.mod_small (n / 10) 10) by lia.
  - eexists. split; [cbn [rev]; rewrite <- app_assoc; reflexivity|].
    intros Hlt. exfalso.
    assert (n / 10 < 10) by (apply N.Div0.div_lt_upper_bound; lia). lia.
Qed.

Lemma two_digits (n : N) :
  n < 100 ->
  padStart 2 (lit "0") (decimal n) = [0x30 + n / 10; 0x30 + n mod 10].
Proof.
  intros Hn. destruct (N.lt_ge_cases n 10) as [Hs|Hl].
  - rewrite decimal_small by exact Hs.
    rewrite N.div_small, N.mod_small by lia. reflexivity.
  - destruct (decimal_large n Hl) as (l & -> & Hnil). rewrite (Hnil Hn).
    rewrite StringFacts.padStart_long by (cbn; lia). cbn [app].
    assert (n / 10 < 10) by (apply N.Div0.div_lt_upper_bound; lia).
    now rewrite (N.mod_small (n / 10) 10) by lia.
Qed.

Lemma formatDate_valid (d m y : N) (w : jsstring) :
  d < 100 -> m < 99 -> 10 <= y ->
  V1.formatDate (ValidDate d m y w)
  = [0x30 + d / 10; 0x30 + d mod 10; 0x2E;
     0x30 + N.succ m / 10; 0x30 + N.succ m mod 10; 0x2E;
     0x30 + (y / 10) mod 10; 0x30 + y mod 10; 0x20] ++ w.
Proof.
  intros Hd Hm Hy. unfold V1.formatDate.
  cbn [getDate getMonth getFullYear toLocaleWeekday String_of fmap option_fmap option_map].
  rewrite !two_digits by lia.
  destruct (decimal_large y Hy) as (l & -> & _).
  rewrite StringFacts.slice_from_last2. reflexivity.
Qed.

Lemma formatDateForDisplay_nonempty (newDate : jsstring -> Date) (dateStr : jsstring) :
  dateStr <> [] ->
  V2.formatDateForDisplay newDate dateStr = V1.formatDate (newDate dateStr).
Proof. destruct dateStr; [congruence|reflexivity]. Qed.

End DateFacts.

(** X13. [formatDate] writes a date as two digits of the day, a point, two
    digits of the month counted from one, a point, the last two digits of
    the year, a blank and the name of the weekday.  A year below ten is
    written with its single digit, and an invalid date as
    [NaN.NaN.aN Invalid Date]. *)
Theorem X13_format_date (d m y : N) (w : jsstring) :
  d < 100 -> m < 99 ->
  (10 <= y ->
   V1.formatDate (ValidDate d m y w)
   = [0x30 + d / 10; 0x30 + d mod 10; 0x2E;
      0x30 + N.succ m / 10; 0x30 + N.succ m mod 10; 0x2E;
      0x30 + (y / 10) mod 10; 0x30 + y mod 10; 0x20] ++ w)
  /\ (y < 10 ->
      V1.formatDate (ValidDate d m y w)
      = [0x30 + d / 10; 0x30 + d mod 10; 0x2E;
         0x30 + N.succ m / 10; 0x30 + N.succ m mod 10; 0x2E;
         0x30 + y; 0x20] ++ w)
  /\ V1.formatDate InvalidDate = lit "NaN.NaN.aN Invalid Date".
Proof.
  intros Hd Hm. split; [|split; [|reflexivity]].
  - now apply DateFacts.formatDate_valid.
  - intros Hy. unfold V1.formatDate.
    cbn [getDate getMonth getFullYear toLocaleWeekday String_of fmap option_fmap option_map].
    rewrite !DateFacts.two_digits by lia. rewrite (DateFacts.decimal_small y Hy).
    reflexivity.
Qed.

Lemma X13_format_date_witness :
  V1.formatDate (ValidDate 3 10 2026 (lit "Tuesday")) = lit "03.11.26 Tuesday"
  /\ V1.formatDate (ValidDate 3 10 7 (lit "Tuesday")) = lit "03.11.7 Tuesday".
Proof.
  split.
  - apply (X13_format_date 3 10 2026 (lit "Tuesday")); reflexivity || discriminate.
  - apply (X13_format_date 3 10 7 (lit "Tuesday")); reflexivity.
Defined.

(** X14. [formatDateForDisplay] shows nothing for the empty string.  Any
    other text is shown as the date the browser reads from it, in the
    format of the first version; a text the browser cannot read as a date
    is shown as [NaN.NaN.aN Invalid Date]. *)
Theorem X14_format_date_for_display (newDate : jsstring -> Date) (dateStr : jsstring) :
  V2.formatDateForDisplay newDate [] = []
  /\ (dateStr <> [] ->
      V2.formatDateForDisplay newDate dateStr = V1.formatDate (newDate dateStr)
      /\ (newDate dateStr = InvalidDate ->
          V2.formatDateForDisplay newDate dateStr = lit "NaN.NaN.aN Invalid Date")
      /\ (forall d m y w,
            newDate dateStr = ValidDate d m y w -> d < 100 -> m < 99 -> 10 <= y ->
            V2.formatDateForDisplay newDate dateStr
            = [0x30 + d / 10; 0x30 + d mod 10; 0x2E;
               0x30 + N.succ m / 10; 0x30 + N.succ m mod 10; 0x2E;
               0x30 + (y / 10) mod 10; 0x30 + y mod 10; 0x20] ++ w)).
Proof.
  split; [reflexivity|]. intros Hne.
  rewrite (DateFacts.formatDateForDisplay_nonempty newDate dateStr Hne).
  split; [reflexivity|]. split.
  - intros ->. reflexivity.
  - intros d m y w -> Hd Hm Hy. now apply DateFacts.formatDate_valid.
Qed.

(** ** Saving, loading and the stored blob *)

Module StoreFacts.

Lemma trimStart_idemp (s : jsstring) : trimStart (trimStart s) = trimStart s.
Proof.
  induction s as [|c s IH]; [reflexivity|]. cbn [trimStart].
  destruct (isTrimmed c) eqn:E; [exact IH|]. cbn [trimStart]. now rewrite E.
Qed.

Lemma trimStart_snoc (l : jsstring) (c : N) :
  isTrimmed c = false -> exists l', trimStart (l ++ [c]) = l' ++ [c].
Proof.
  intros Hc. induction l as [|a l IH].
  - exists []. cbn. now rewrite Hc.
  - cbn [app trimStart]. destruct (isTrimmed a); [exact IH|]. now exists (a :: l).
Qed.

Lemma trim_idemp (s : jsstring) : trim (trim s) = trim s.
Proof.
  assert (Hclean : forall x, trimStart x = x -> trimStart (rev x) = rev x -> trim x = x).
  { intros x H1 H2. unfold trim, trimEnd. now rewrite H1, H2, rev_involutive. }
  apply Hclean.
  - unfold trim, trimEnd. pose proof (trimStart_idemp s) as Hu.
    destruct (trimStart s) as [|c u] eqn:Es; [reflexivity|].
    assert (Hc : isTrimmed c = false).
    { cbn [trimStart] in Hu. destruct (isTrimmed c) eqn:E; [|reflexivity].
      exfalso. assert (Hlen : (length (trimStart u) <= length u)%nat).
      { clear. induction u as [|a u IH]; [reflexivity|]. cbn [trimStart].
        destruct (isTrimmed a); cbn [length]; lia. }
      rewrite Hu in Hlen. cbn [length] in Hlen. lia. }
    cbn [rev]. destruct (trimStart_snoc (rev u) c Hc) as [l' ->].
    rewrite rev_app_distr. cbn [rev app trimStart]. now rewrite Hc.
  - unfold trim, trimEnd. rewrite rev_involutive. apply trimStart_idemp.
Qed.

Lemma V2_save_accepted templateName (app : V2.App) (b : Browser) :
  trim (default [] templateName) <> [] ->
  filter (fun van => trim van <> []) (V2.van <$> V2.rows app) <> [] ->
  V2.handleSaveTemplate templateName app b
  = let newTemplate :=
      {| name := trim (default [] templateName);
         vans := filter (fun van => trim van <> []) (V2.van <$> V2.rows app) |} in
    let updatedTemplates :=
      filter (fun t => name t <> name newTemplate) (V2.templates app) ++ [newTemplate] in
    (V2.setTemplates updatedTemplates app,
     alert (saved_message (name newTemplate))
       (setItem V2.TEMPLATES_STORAGE_KEY (JSON.stringify updatedTemplates) b)).
Proof.
  intros Hn Hv. unfold V2.handleSaveTemplate.
  rewrite (proj2 (save_guard _) Hn).
  destruct (length _ =? 0)%nat eqn:E; [|reflexivity].
  apply length_eqb_0_nil in E. contradiction.
Qed.

Lemma find_upserted (t : Template) (ts : list Template) :
  List.find (fun t' => bool_decide (name t' = name t))
            (filter (fun t' => name t' <> name t) ts ++ [t]) = Some t.
Proof.
  induction ts as [|x ts IH]; cbn [filter].
  - cbn. now rewrite bool_decide_eq_true_2.
  - rewrite filter_cons. destruct (decide (name x <> name t)) as [Hx|Hx]; [|exact IH].
    cbn [app find]. now rewrite bool_decide_eq_false_2.
Qed.

Lemma filter_names_fresh (n : jsstring) (ts : list Template) :
  n ∉ name <$> ts -> filter (fun t => name t <> n) ts = ts.
Proof.
  induction ts as [|t ts IH]; intros Hn; [reflexivity|].
  rewrite fmap_cons, not_elem_of_cons in Hn. destruct Hn as [Ht Hn].
  rewrite filter_cons_True by congruence. now rewrite IH.
Qed.

Lemma upsert_saved (t : Template) (ts : list Template) :
  name t <> [] -> trim (name t) = name t -> vans t <> [] ->
  Forall (fun van => trim van <> []) (vans t) ->
  saved_templates ts ->
  saved_templates (filter (fun t' => name t' <> name t) ts ++ [t]).
Proof.
  intros H1 H2 H3 H4 [Hnd Hall]. split.
  - rewrite fmap_app. apply NoDup_app. split; [|split; [|apply NoDup_singleton]].
    + eapply sublist_NoDup; [exact Hnd|].
      clear. induction ts as [|x ts IH]; [constructor|].
      rewrite filter_cons. destruct (decide (name x <> name t)); cbn; now constructor.
    + intros n Hn Hn'. apply list_elem_of_singleton in Hn'. cbn in Hn'. subst n.
      apply list_elem_of_fmap in Hn as (t' & Heq & Ht').
      apply list_elem_of_filter in Ht' as [Hne _]. congruence.
  - apply Forall_app. split; [|now repeat constructor].
    apply Forall_forall. intros t' Ht'. apply list_elem_of_filter in Ht' as [_ Ht'].
    rewrite Forall_forall in Hall. now apply Hall.
Qed.

End StoreFacts.

(** X15. What was saved can be loaded.  After a valid save, loading the
    template by the trimmed name, the replacement confirmed, fills the
    table with one row per van that was not blank, in the order of the
    rows saved, and with nothing in the other columns. *)
Theorem X15_save_then_load (s : jsstring) (app : V2.App) (b : Browser) (c : Crypto) :
  trim s <> [] ->
  filter (fun van => trim van <> []) (V2.van <$> V2.rows app) <> [] ->
  let '(app1, _) := V2.handleSaveTemplate (Some s) app b in
  let '(app2, _, _) := V2.handleLoadTemplate (trim s) true app1 c in
  V2.van <$> V2.rows app2
  = filter (fun van => trim van <> []) (V2.van <$> V2.rows app)
  /\ Forall (fun row => V2.vanOut row = [] /\ V2.eWaybill row = [] /\ V2.invoice row = [])
            (V2.rows app2)
  /\ V2.templates app2 = V2.templates app1.
Proof.
  intros Hn Hv. rewrite (StoreFacts.V2_save_accepted (Some s) app b Hn Hv).
  change (default [] (Some s)) with s. cbn zeta. cbn [name].
  unfold V2.handleLoadTemplate.
  destruct (trim s) as [|ch rest] eqn:Hs; [congruence|]. rewrite <- Hs.
  rewrite andb_false_r. unfold V2.findTemplate. cbn [V2.templates V2.setTemplates].
  pose proof (StoreFacts.find_upserted
                {| name := trim s;
                   vans := filter (fun van => trim van <> []) (V2.van <$> V2.rows app) |}
                (V2.templates app)) as Hfind.
  cbn [name] in Hfind. rewrite Hfind. cbn [vans].
  rewrite newRows_spec. cbn [V2.rows V2.setRows V2.templates].
  split; [apply imap_rows_van|]. split; [|reflexivity].
  apply Forall_forall. intros row Hrow.
  apply list_elem_of_lookup in Hrow as [i Hi].
  rewrite list_lookup_imap in Hi.
  destruct (_ !! i) as [van|]; [|discriminate]. cbn in Hi. injection Hi as <-. auto.
Qed.

Lemma X15_save_then_load_witness :
  let '(app1, _) :=
    V2.handleSaveTemplate (Some (lit " east ")) sample_app2 sample_browser in
  let '(app2, _, _) := V2.handleLoadTemplate (lit "east") true app1 sample_crypto in
  V2.van <$> V2.rows app2 = [lit "CJB-PON"; lit "CJB-TVL"]
  /\ Forall (fun row => V2.vanOut row = [] /\ V2.eWaybill row = [] /\ V2.invoice row = [])
            (V2.rows app2)
  /\ V2.templates app2 = V2.templates app1.
Proof.
  apply (X15_save_then_load (lit " east ") sample_app2 sample_browser sample_crypto).
  - intros H. vm_compute in H. discriminate H.
  - intros H. vm_compute in H. discriminate H.
Defined.

(** X16. Saving a second time, with nothing changed in between, leaves the
    templates and the stored blob as the first save left them. *)
Theorem X16_save_twice (templateName : option jsstring) (app : V1.App) (b : Browser) :
  let '(app1, b1) := V1.handleSaveTemplate templateName app b in
  let '(app2, b2) := V1.handleSaveTemplate templateName app1 b1 in
  app2 = app1 /\ localStorage b2 = localStorage b1.
Proof.
  destruct (decide (trim (default [] templateName) = [])) as [Hn|Hn].
  { rewrite (V1_save_rejected_name _ app b Hn). cbv beta iota.
    now rewrite (V1_save_rejected_name _ app b Hn). }
  destruct (decide (filter (fun van => trim van <> []) (V1.van <$> V1.rows app) = []))
    as [Hv|Hv].
  { rewrite (V1_save_rejected_vans _ app b Hn Hv). cbv beta iota.
    now rewrite (V1_save_rejected_vans _ app _ Hn Hv). }
  rewrite (V1_save_accepted _ app b Hn Hv). cbv beta iota zeta.
  rewrite V1_save_accepted by (cbn [V1.rows V1.setTemplates]; assumption).
  cbv beta iota zeta.
  cbn [V1.rows V1.templates V1.setTemplates name localStorage alert setItem].
  rewrite (upsert_other_names (V1.templates app)
             {| name := trim (default [] templateName);
                vans := filter (fun van => trim van <> []) (V1.van <$> V1.rows app) |}).
  split; [reflexivity|]. apply insert_insert_eq.
Qed.

(** X17. A valid save under a name no template has yet keeps every
    template there was, in place, and puts the new one behind them. *)
Theorem X17_save_new_name (s : jsstring) (app : V1.App) (b : Browser) :
  trim s <> [] ->
  filter (fun van => trim van <> []) (V1.van <$> V1.rows app) <> [] ->
  trim s ∉ name <$> V1.templates app ->
  V1.templates (fst (V1.handleSaveTemplate (Some s) app b))
  = V1.templates app
      ++ [{| name := trim s;
             vans := filter (fun van => trim van <> []) (V1.van <$> V1.rows app) |}].
Proof.
  intros Hn Hv Hfresh. rewrite (V1_save_accepted (Some s) app b Hn Hv).
  change (default [] (Some s)) with s. cbn [fst V1.templates V1.setTemplates name].
  now rewrite StoreFacts.filter_names_fresh.
Qed.

Lemma X17_save_new_name_witness :
  V1.templates (fst (V1.handleSaveTemplate (Some (lit " east ")) sample_app sample_browser))
  = [mkTemplate (lit "north") [lit "CJB-MAA"]; mkTemplate (lit "south") [lit "CJB-TVL"];
     mkTemplate (lit "east") [lit "CJB-PON"]].
Proof.
  apply (X17_save_new_name (lit " east ") sample_app sample_browser).
  - intros H. vm_compute in H. discriminate H.
  - intros H. vm_compute in H. discriminate H.
  - apply (bool_decide_unpack _). vm_compute. exact I.
Defined.

(** X18. Saves keep the store in order.  If the names of the templates
    are pairwise distinct, trimmed and not empty and every template has
    vans, none of them blank, then the same holds after any call of
    [handleSaveTemplate], accepted or not. *)
Theorem X18_save_keeps_store_in_order
    (templateName : option jsstring) (app : V1.App) (b : Browser) :
  saved_templates (V1.templates app) ->
  saved_templates (V1.templates (fst (V1.handleSaveTemplate templateName app b))).
Proof.
  intros Hts.
  destruct (decide (trim (default [] templateName) = [])) as [Hn|Hn].
  { now rewrite V1_save_rejected_name. }
  destruct (decide (filter (fun van => trim van <> []) (V1.van <$> V1.rows app) = []))
    as [Hv|Hv].
  { now rewrite V1_save_rejected_vans. }
  rewrite (V1_save_accepted _ app b Hn Hv). cbn [fst V1.templates V1.setTemplates].
  apply StoreFacts.upsert_saved; cbn [name vans]; try assumption.
  - apply StoreFacts.trim_idemp.
  - apply Forall_forall. intros van Hvan. now apply list_elem_of_filter in Hvan as [Hvan _].
Qed.

Lemma X18_save_keeps_store_in_order_witness :
  saved_templates (V1.templates sample_app)
  /\ saved_templates
       (V1.templates
          (fst (V1.handleSaveTemplate (Some (lit "north")) sample_app sample_browser))).
Proof.
  assert (Hts : saved_templates (V1.templates sample_app)).
  { split; [apply (bool_decide_unpack _); vm_compute; exact I|].
    repeat constructor; discriminate. }
  split; [exact Hts|].
  apply (X18_save_keeps_store_in_order (Some (lit "north")) sample_app sample_browser Hts).
Defined.

(** X19. The mount effect never writes to the storage.  Without a blob, or
    with an empty one, there are no templates and nothing is logged; with
    a blob that is not JSON there are no templates either, and the
    failure is logged once. *)
Theorem X19_mount_without_templates (b : Browser) :
  localStorage (snd (V1.loadStoredTemplates b)) = localStorage b
  /\ alerts (snd (V1.loadStoredTemplates b)) = alerts b
  /\ (getItem V1.TEMPLATES_STORAGE_KEY b = None
      \/ getItem V1.TEMPLATES_STORAGE_KEY b = Some [] ->
      V1.loadStoredTemplates b = (Typed [], b))
  /\ (forall blob,
        getItem V1.TEMPLATES_STORAGE_KEY b = Some blob -> blob <> [] ->
        JSON.parse blob = None ->
        V1.loadStoredTemplates b
        = (Typed [],
           console_error (lit "Failed to load templates from localStorage") b)).
Proof.
  unfold V1.loadStoredTemplates.
  destruct (getItem V1.TEMPLATES_STORAGE_KEY b) as [[|ch blob]|] eqn:Hget.
  - split; [reflexivity|]. split; [reflexivity|]. split; [reflexivity|].
    intros blob [= <-] Hne. congruence.
  - destruct (JSON.parse (ch :: blob)) as [v|] eqn:Hparse.
    + destruct (JSON.as_templates v).
      all: split; [reflexivity|]; split; [reflexivity|]; split;
        [intros [H|H]; discriminate H|].
      all: intros blob' [= <-] _ Hnone; congruence.
    + split; [reflexivity|]. split; [reflexivity|].
      split; [intros [H|H]; discriminate H|]. reflexivity.
  - split; [reflexivity|]. split; [reflexivity|]. split; [reflexivity|].
    intros blob H. discriminate H.
Qed.

(** X20. The mount effect reads back what any save wrote: a storage that
    holds [JSON.stringify] of a list of templates gives exactly that
    list, the empty list included, and logs nothing. *)
Theorem X20_mount_reads_saved_blob (ts : list Template) (b : Browser) :
  getItem V1.TEMPLATES_STORAGE_KEY b = Some (JSON.stringify ts) ->
  V1.loadStoredTemplates b = (Typed ts, b).
Proof.
  intros Hget. unfold V1.loadStoredTemplates. rewrite Hget.
  destruct (JSON.stringify ts) as [|ch blob] eqn:Hblob; [discriminate Hblob|].
  rewrite <- Hblob, JSONFacts.parse_stringify, JSONFacts.as_templates_of_templates.
  reflexivity.
Qed.

Lemma X20_mount_reads_saved_blob_witness :
  V1.loadStoredTemplates
    (setItem V1.TEMPLATES_STORAGE_KEY (JSON.stringify sample_templates) sample_browser)
  = (Typed sample_templates,
     setItem V1.TEMPLATES_STORAGE_KEY (JSON.stringify sample_templates) sample_browser).
Proof.
  apply (X20_mount_reads_saved_blob sample_templates).
  apply lookup_insert_eq.
Defined.

(** ** The versions side by side *)

Module VersionFacts.

Lemma fmap_eq_length {A B C} (f : A -> C) (g : B -> C) (l1 : list A) (l2 : list B) :
  f <$> l1 = g <$> l2 -> length l1 = length l2.
Proof. intros H. apply (f_equal length) in H. now rewrite !length_fmap in H. Qed.

Lemma fmap_eq_filter {A B C} (f : A -> C) (g : B -> C)
    (P : A -> Prop) (Q : B -> Prop)
    `{!forall x, Decision (P x)} `{!forall y, Decision (Q y)}
    (l1 : list A) (l2 : list B) :
  (forall x y, f x = g y -> P x <-> Q y) ->
  f <$> l1 = g <$> l2 -> f <$> filter P l1 = g <$> filter Q l2.
Proof.
  intros HPQ. revert l2. induction l1 as [|x l1 IH]; intros [|y l2] Heq;
    try discriminate Heq; [reflexivity|].
  cbn [fmap list_fmap] in Heq. injection Heq as Hxy Heq.
  rewrite !filter_cons. destruct (decide (P x)) as [HP|HP].
  - rewrite decide_True by (now apply (HPQ x y Hxy)).
    cbn [fmap list_fmap]. f_equal; [exact Hxy|now apply IH].
  - rewrite decide_False by (now rewrite <- (HPQ x y Hxy)). now apply IH.
Qed.

Lemma fmap_eq_fmap {A B C} (f : A -> C) (g : B -> C) (h1 : A -> A) (h2 : B -> B)
    (l1 : list A) (l2 : list B) :
  (forall x y, f x = g y -> f (h1 x) = g (h2 y)) ->
  f <$> l1 = g <$> l2 -> f <$> (h1 <$> l1) = g <$> (h2 <$> l2).
Proof.
  intros Hh. revert l2. induction l1 as [|x l1 IH]; intros [|y l2] H;
    try discriminate H; [reflexivity|].
  cbn [fmap list_fmap] in H. injection H as Hxy H.
  cbn [fmap list_fmap]. f_equal; [now apply Hh|now apply IH].
Qed.

Lemma newRows_12 (vans : list jsstring) (c : Crypto) :
  cells1 <$> fst (V1.newRows vans c) = cells2 <$> fst (V2.newRows vans c)
  /\ snd (V1.newRows vans c) = snd (V2.newRows vans c).
Proof.
  revert c. induction vans as [|van vans IH]; intros c; [split; reflexivity|].
  cbn [V1.newRows V2.newRows]. destruct (randomUUID c) as [i c1].
  destruct (IH c1) as [IH1 IH2].
  destruct (V1.newRows vans c1) as [rest1 c2], (V2.newRows vans c1) as [rest2 c2'].
  cbn [fst snd] in *. split; [|exact IH2].
  cbn [fmap list_fmap]. f_equal. exact IH1.
Qed.

Lemma newRows_23 (vans : list jsstring) (c : Crypto) :
  (fun row => (cells2 row, V2.vanOut row)) <$> fst (V2.newRows vans c)
  = (fun row => (cells3 row, V3.vanOut row)) <$> fst (V3.newRows vans c)
  /\ snd (V2.newRows vans c) = snd (V3.newRows vans c).
Proof.
  revert c. induction vans as [|van vans IH]; intros c; [split; reflexivity|].
  cbn [V2.newRows V3.newRows]. destruct (randomUUID c) as [i c1].
  destruct (IH c1) as [IH1 IH2].
  destruct (V2.newRows vans c1) as [rest1 c2], (V3.newRows vans c1) as [rest2 c2'].
  cbn [fst snd] in *. split; [|exact IH2].
  cbn [fmap list_fmap]. f_equal. exact IH1.
Qed.

End VersionFacts.

(** X27. The three versions load a template alike.  On states that show
    the same table and hold the same templates, with the same selected
    name, the same answer to the dialog and the same generator, the three
    [handleLoadTemplate] leave the same table, the same templates, the
    same value in the select element and the same generator. *)
Theorem X27_load_same_in_all_versions (templateName : jsstring) (confirm : bool)
    (app1 : V1.App) (app2 : V2.App) (app3 : V3.App) (c : Crypto) :
  same_table12 app1 app2 ->
  same_table23 app2 app3 ->
  let '(app1', select1, c1) := V1.handleLoadTemplate templateName confirm app1 c in
  let '(app2', select2, c2) := V2.handleLoadTemplate templateName confirm app2 c in
  let '(app3', select3, c3) := V3.handleLoadTemplate templateName confirm app3 c in
  same_table12 app1' app2' /\ same_table23 app2' app3'
  /\ select1 = select2 /\ select2 = select3
  /\ c1 = c2 /\ c2 = c3.
Proof.
  intros [Hr12 Ht12] [Hr23 Ht23].
  unfold V1.handleLoadTemplate, V2.handleLoadTemplate, V3.handleLoadTemplate.
  destruct templateName as [|ch rest]; [now repeat split|].
  rewrite <- (VersionFacts.fmap_eq_length _ _ _ _ Hr23).
  rewrite (VersionFacts.fmap_eq_length _ _ _ _ Hr12).
  destruct ((0 <? length (V2.rows app2))%nat && negb confirm); [now repeat split|].
  unfold V1.findTemplate, V2.findTemplate, V3.findTemplate.
  rewrite Ht12, <- Ht23.
  destruct (List.find _ (V2.templates app2)) as [template|]; [|now repeat split].
  destruct (VersionFacts.newRows_12 (vans template) c) as [H12 Hc12].
  destruct (VersionFacts.newRows_23 (vans template) c) as [H23 Hc23].
  destruct (V1.newRows (vans template) c) as [rs1 c1],
           (V2.newRows (vans template) c) as [rs2 c2],
           (V3.newRows (vans template) c) as [rs3 c3].
  cbn [fst snd] in *. now repeat split.
Qed.

Lemma X27_load_same_in_all_versions_witness :
  let '(app1', select1, c1) :=
    V1.handleLoadTemplate (lit "north") false (V1.mkApp [] sample_templates)
      sample_crypto in
  let '(app2', select2, c2) :=
    V2.handleLoadTemplate (lit "north") false (V2.mkApp [] sample_templates)
      sample_crypto in
  let '(app3', select3, c3) :=
    V3.handleLoadTemplate (lit "north") false (V3.mkApp [] sample_templates)
      sample_crypto in
  same_table12 app1' app2' /\ same_table23 app2' app3'
  /\ select1 = select2 /\ select2 = select3
  /\ c1 = c2 /\ c2 = c3.
Proof.
  apply (X27_load_same_in_all_versions (lit "north") false
           (V1.mkApp [] sample_templates) (V2.mkApp [] sample_templates)
           (V3.mkApp [] sample_templates) sample_crypto).
  - split; reflexivity.
  - split; reflexivity.
Defined.

(** X28. The table is handled alike in the three versions.  On states of
    the first and the second version that show the same table, the time
    column apart, adding a row, removing a row, writing a cell of a
    column both have, and clearing the table leave states that again show
    the same table, and the generator advances alike.  The same holds,
    the time column included, for removing a row and clearing the table
    in the second and the third version. *)
Theorem X28_rows_same_in_all_versions
    (app1 : V1.App) (app2 : V2.App) (app3 : V3.App) (c : Crypto) :
  same_table12 app1 app2 ->
  same_table23 app2 app3 ->
  (same_table12 (fst (V1.handleAddRow app1 c)) (fst (V2.handleAddRow app2 c))
   /\ snd (V1.handleAddRow app1 c) = snd (V2.handleAddRow app2 c))
  /\ (forall i,
        same_table12 (V1.handleRemoveRow i app1) (V2.handleRemoveRow i app2)
        /\ same_table23 (V2.handleRemoveRow i app2) (V3.handleRemoveRow i app3))
  /\ (forall i field value,
        same_table12 (V1.handleUpdateRow i field value app1)
                     (V2.handleUpdateRow i (later_field field) value app2))
  /\ (forall confirm,
        same_table12 (V1.handleClearTable confirm app1) (V2.handleClearTable confirm app2)
        /\ same_table23 (V2.handleClearTable confirm app2)
                        (V3.handleClearTable confirm app3)).
Proof.
  intros [Hr12 Ht12] [Hr23 Ht23]. split; [|split; [|split]].
  - unfold V1.handleAddRow, V2.handleAddRow, randomUUID. cbn [fst snd].
    split; [|reflexivity]. split; [|exact Ht12].
    cbn [V1.rows V1.setRows V2.rows V2.setRows]. rewrite !fmap_app.
    now rewrite Hr12.
  - intros i. unfold V1.handleRemoveRow, V2.handleRemoveRow, V3.handleRemoveRow.
    split; (split; [|assumption]).
    + cbn [V1.rows V1.setRows V2.rows V2.setRows].
      apply VersionFacts.fmap_eq_filter; [|exact Hr12].
      intros x y Hxy. injection Hxy as -> _ _ _. reflexivity.
    + cbn [V3.rows V3.setRows V2.rows V2.setRows].
      apply VersionFacts.fmap_eq_filter; [|exact Hr23].
      intros x y Hxy. injection Hxy as -> _ _ _ _. reflexivity.
  - intros i field value. unfold V1.handleUpdateRow, V2.handleUpdateRow.
    split; [|exact Ht12]. cbn [V1.rows V1.setRows V2.rows V2.setRows].
    apply VersionFacts.fmap_eq_fmap; [|exact Hr12].
    intros x y Hxy. injection Hxy as Hid Hvan Hew Hinv. rewrite Hid.
    destruct (bool_decide (V2.id y = i)).
    + destruct field; unfold cells1, cells2; cbn; congruence.
    + unfold cells1, cells2. congruence.
  - intros [|]; unfold V1.handleClearTable, V2.handleClearTable, V3.handleClearTable.
    + split; (split; [reflexivity|assumption]).
    + split; (split; assumption).
Qed.

Lemma X28_rows_same_in_all_versions_witness :
  same_table12 (V1.handleRemoveRow (lit "a") (V1.mkApp [] sample_templates))
               (V2.handleRemoveRow (lit "a") (V2.mkApp [] sample_templates))
  /\ same_table12 (fst (V1.handleAddRow (V1.mkApp [] sample_templates) sample_crypto))
                  (fst (V2.handleAddRow (V2.mkApp [] sample_templates) sample_crypto)).
Proof.
  pose proof (X28_rows_same_in_all_versions
                (V1.mkApp [] sample_templates) (V2.mkApp [] sample_templates)
                (V3.mkApp [] sample_templates) sample_crypto
                (conj eq_refl eq_refl) (conj eq_refl eq_refl)) as H.
  destruct H as [[Hadd _] [Hremove _]]. split.
  - apply (Hremove (lit "a")).
  - exact Hadd.
Defined.

Import ServiceWorker.



(** C2, as the code has it.  The install never fails and asks the network
    for every manifest entry, but the manifest is cached as a whole or not
    at all: when every entry arrives with an acceptable response, all of
    them are cached and nothing is logged; when one entry fails, one line
    is logged and no entry is stored in any cache. *)
Theorem C2_install_is_all_or_nothing (w : World) :
  let '(ok, w') := on_install w in
  ok = true
  /\ requested w' = requested w ++ URLS_TO_CACHE
  /\ ((forall u, u ∈ URLS_TO_CACHE ->
         exists r, network w u = Some r /\ acceptable r = true) ->
      ServiceWorker.console w' = ServiceWorker.console w
      /\ forall u, u ∈ URLS_TO_CACHE ->
           cache_named CACHE_NAME (caches w') ≫= cache_match u = network w u)
  /\ ((exists u, u ∈ URLS_TO_CACHE /\ fetch_for_cache (network w) u = None) ->
      ServiceWorker.console w' = ServiceWorker.console w ++ [install_log]
      /\ caches w'
         = if has_cache CACHE_NAME (caches w) then caches w
           else caches w ++ [(CACHE_NAME, [])]).
Proof.
  rewrite WorkerFacts.on_install_spec.
  destruct (mapM (fetch_for_cache (network w)) URLS_TO_CACHE) as [es|] eqn:Hes.
  - split; [reflexivity|]. split; [reflexivity|]. split.
    + intros _. split; [reflexivity|]. intros u Hu.
      cbn [caches skipWaiting set_caches].
      rewrite WorkerFacts.cache_named_update.
      destruct (WorkerFacts.caches_open_spec CACHE_NAME w) as (cs & _ & [c Hc] & <-).
      rewrite Hc. cbn.
      destruct (WorkerFacts.fetched_entries _ _ _ Hes) as [Hfst Hall].
      destruct (Hall u Hu) as (r & -> & Hin).
      apply WorkerFacts.cache_match_put_all; [|exact Hin].
      rewrite Hfst. apply WorkerFacts.manifest_NoDup.
    + intros (u & Hu & Hnone). exfalso.
      assert (Hsome : is_Some (mapM (fetch_for_cache (network w)) URLS_TO_CACHE))
        by (rewrite Hes; eauto).
      apply mapM_is_Some_1 in Hsome. rewrite Forall_forall in Hsome.
      specialize (Hsome u Hu). cbn in Hsome. rewrite Hnone in Hsome.
      now destruct Hsome.
  - split; [reflexivity|]. split; [reflexivity|]. split.
    + intros Hall. exfalso. apply mapM_None_1, Exists_exists in Hes.
      destruct Hes as (u & Hu & Hnone). destruct (Hall u Hu) as (r & Hr & Hacc).
      unfold fetch_for_cache in Hnone. rewrite Hr, Hacc in Hnone. discriminate.
    + intros _. split; reflexivity.
Qed.

Lemma C2_install_is_all_or_nothing_witness :
  (let '(ok, w') := on_install (world_of [] all_up) in
   ok = true
   /\ ServiceWorker.console w' = []
   /\ forall u, u ∈ URLS_TO_CACHE ->
        cache_named CACHE_NAME (caches w') ≫= cache_match u = all_up u)
  /\ (let '(ok, w') := on_install (world_of [] cdn_down) in
      ok = true
      /\ ServiceWorker.console w' = [install_log]
      /\ caches w' = [(CACHE_NAME, [])]).
Proof.
  split.
  - pose proof (C2_install_is_all_or_nothing (world_of [] all_up)) as H.
    destruct (on_install (world_of [] all_up)) as [ok w'].
    destruct H as (Hok & _ & Hall & _). split; [exact Hok|].
    apply Hall. intros u _. exists (mkResponse 200 basic u). split; reflexivity.
  - pose proof (C2_install_is_all_or_nothing (world_of [] cdn_down)) as H.
    destruct (on_install (world_of [] cdn_down)) as [ok w'].
    destruct H as (Hok & _ & _ & Hfail). split; [exact Hok|].
    apply Hfail. exists (lit "https://cdn.tailwindcss.com"). split; [|reflexivity].
    apply (bool_decide_unpack _). vm_compute. exact I.
Defined.

(** C2 as the specification words it does not hold: with one CDN script
    out of reach the install succeeds, and a manifest entry that the
    network does deliver is not in the cache afterwards. *)
Lemma C2_one_failure_caches_nothing :
  ~ (forall (w : World) (u : jsstring) (r : Response),
       u ∈ URLS_TO_CACHE ->
       network w u = Some r ->
       acceptable r = true ->
       cache_named CACHE_NAME (caches (snd (on_install w))) ≫= cache_match u = Some r).
Proof.
  intros H.
  specialize (H (world_of [] cdn_down) (lit "/index.html")
                (mkResponse 200 basic (lit "/index.html"))).
  assert (Hin : lit "/index.html" ∈ URLS_TO_CACHE)
    by (apply (bool_decide_unpack _); vm_compute; exact I).
  specialize (H Hin eq_refl eq_refl). vm_compute in H. discriminate.
Qed.

(** C6. The activate phase succeeds and leaves exactly the caches named by
    the current version tag: no other name remains, and, names being keys,
    at most one cache does. *)
Theorem C6_activate_keeps_current_cache_only (w : World) :
  let '(ok, w') := on_activate w in
  ok = true
  /\ caches w' = filter (fun e => fst e = CACHE_NAME) (caches w)
  /\ (forall n, n ∈ fst <$> caches w' -> n = CACHE_NAME)
  /\ (NoDup (fst <$> caches w) -> (length (caches w') <= 1)%nat).
Proof.
  rewrite WorkerFacts.on_activate_caches. cbn [caches clients_claim set_caches].
  split; [reflexivity|]. split; [reflexivity|]. split.
  - intros n Hn. apply list_elem_of_fmap in Hn as (e & -> & He).
    now apply list_elem_of_filter in He as [He _].
  - apply WorkerFacts.filter_key_NoDup.
Qed.

Lemma C6_activate_keeps_current_cache_only_witness :
  NoDup (fst <$> three_versions)
  /\ let '(ok, w') := on_activate (world_of three_versions offline) in
     ok = true
     /\ caches w' = [(CACHE_NAME, [(lit "/index.html", shell_document)])]
     /\ (forall n, n ∈ fst <$> caches w' -> n = CACHE_NAME)
     /\ (length (caches w') <= 1)%nat.
Proof.
  assert (Hnd : NoDup (fst <$> three_versions))
    by (apply (bool_decide_unpack _); vm_compute; exact I).
  split; [exact Hnd|].
  pose proof (C6_activate_keeps_current_cache_only (world_of three_versions offline)) as H.
  destruct (on_activate (world_of three_versions offline)) as [ok w'].
  destruct H as (Hok & Hcaches & Hnames & Hone).
  split; [exact Hok|]. split; [exact Hcaches|]. split; [exact Hnames|].
  apply Hone. exact Hnd.
Defined.

(** C7. A request that is not a navigation and has a response in the cache
    is answered with that response and the network is not asked; on a miss
    the network is asked once, for the URL of the request. *)
Theorem C7_cached_asset_needs_no_network (request : Request) (w : World) :
  mode request <> navigate ->
  let '(outcome, w') := on_fetch request w in
  match storage_match (url request) (caches w) with
  | Some r => outcome = Respond r /\ requested w' = requested w /\ w' = w
  | None =>
      requested w' = requested w ++ [url request]
      /\ outcome = match network w (url request) with
                   | Some r => Respond r
                   | None => NetworkError
                   end
  end.
Proof.
  intros Hm. unfold on_fetch, respondWith.
  rewrite (WorkerFacts.fetch_listener_other request w Hm).
  destruct (storage_match (url request) (caches w)) as [r|]; [auto|].
  destruct (network w (url request)); auto.
Qed.

Lemma C7_cached_asset_needs_no_network_witness :
  on_fetch index_script (world_of three_versions all_up)
  = (Respond shell_document, world_of three_versions all_up)
  /\ let '(outcome, w') := on_fetch index_script (world_of three_versions all_up) in
     match storage_match (url index_script) (caches (world_of three_versions all_up)) with
     | Some r =>
         outcome = Respond r
         /\ requested w' = requested (world_of three_versions all_up)
         /\ w' = world_of three_versions all_up
     | None =>
         requested w' = requested (world_of three_versions all_up) ++ [url index_script]
         /\ outcome = match network (world_of three_versions all_up) (url index_script) with
                      | Some r => Respond r
                      | None => NetworkError
                      end
     end.
Proof.
  split; [reflexivity|].
  apply (C7_cached_asset_needs_no_network index_script (world_of three_versions all_up)).
  discriminate.
Defined.

(** C8. Handling a fetch event, a navigation or not, leaves every cache as
    it was. *)
Theorem C8_fetch_never_writes_cache (request : Request) (w : World) :
  caches (snd (on_fetch request w)) = caches w.
Proof.
  unfold on_fetch, respondWith.
  destruct (decide (mode request = navigate)) as [Hm|Hm].
  - rewrite (WorkerFacts.fetch_listener_navigate request w Hm).
    destruct (network w (url request)); [reflexivity|].
    now destruct (storage_match _ (caches w)).
  - rewrite (WorkerFacts.fetch_listener_other request w Hm).
    destruct (storage_match _ (caches w)); [reflexivity|].
    now destruct (network w (url request)).
Qed.

(** ** The life of the worker, end to end *)

(** X21. A navigation is answered from the network whenever the network
    answers, with any status: the cache is not consulted, even if it holds
    a document for that URL, and exactly one request is made. *)
Theorem X21_navigation_is_network_first (request : Request) (w : World) (r : Response) :
  mode request = navigate ->
  network w (url request) = Some r ->
  on_fetch request w = (Respond r, add_requested [url request] w).
Proof.
  intros Hm Hnet. unfold on_fetch, respondWith.
  now rewrite (WorkerFacts.fetch_listener_navigate request w Hm), Hnet.
Qed.

Lemma X21_navigation_is_network_first_witness :
  on_fetch navigation (world_of root_only all_up)
  = (Respond (mkResponse 200 basic (lit "/")),
     add_requested [lit "/"] (world_of root_only all_up)).
Proof.
  apply (X21_navigation_is_network_first navigation (world_of root_only all_up));
    reflexivity.
Defined.

(** X22. Once an install has gone through, navigations work without the
    network.  If every manifest entry could be fetched and no cache held a
    document for [/index.html] before, then a navigation that comes when
    the network is down is answered with the [/index.html] the install
    fetched. *)
Theorem X22_install_then_offline_navigation (w : World)
    (net' : jsstring -> option Response) (request : Request) :
  (forall u, u ∈ URLS_TO_CACHE -> exists r, network w u = Some r /\ acceptable r = true) ->
  storage_match (lit "/index.html") (caches w) = None ->
  mode request = navigate ->
  net' (url request) = None ->
  exists r,
    network w (lit "/index.html") = Some r
    /\ fst (on_fetch request (set_network net' (snd (on_install w)))) = Respond r.
Proof.
  intros Hall Hnone Hm Hoff.
  assert (Hin : lit "/index.html" ∈ URLS_TO_CACHE)
    by (apply (bool_decide_unpack _); vm_compute; exact I).
  unfold on_fetch, respondWith.
  rewrite (WorkerFacts.fetch_listener_navigate request _ Hm).
  cbn [network set_network caches]. rewrite Hoff.
  rewrite WorkerFacts.on_install_spec.
  destruct (mapM (fetch_for_cache (network w)) URLS_TO_CACHE) as [es|] eqn:Hes.
  - destruct (WorkerFacts.fetched_entries _ _ _ Hes) as [Hfst Hentries].
    destruct (Hentries _ Hin) as (r & Hr & Hre). exists r. split; [exact Hr|].
    cbn [snd caches skipWaiting set_caches add_requested].
    rewrite (LifecycleFacts.storage_match_update _ r); [reflexivity| | |].
    + now rewrite LifecycleFacts.storage_match_opened.
    + intros c. apply WorkerFacts.cache_match_put_all; [|exact Hre].
      rewrite Hfst. apply WorkerFacts.manifest_NoDup.
    + apply LifecycleFacts.opened_has_cache.
  - exfalso. apply mapM_None_1, Exists_exists in Hes.
    destruct Hes as (u & Hu & Hnone'). destruct (Hall u Hu) as (r & Hr & Hacc).
    unfold fetch_for_cache in Hnone'. rewrite Hr, Hacc in Hnone'. discriminate.
Qed.

Lemma X22_install_then_offline_navigation_witness :
  exists r,
    all_up (lit "/index.html") = Some r
    /\ fst (on_fetch navigation
              (set_network offline (snd (on_install (world_of [] all_up)))))
       = Respond r.
Proof.
  apply (X22_install_then_offline_navigation (world_of [] all_up) offline navigation).
  - intros u _. eexists. split; reflexivity.
  - reflexivity.
  - reflexivity.
  - reflexivity.
Defined.

(** X23. An install followed by an activation leaves one cache, the one of
    the current version, whatever caches there were; when every manifest
    entry could be fetched it holds all of them. *)
Theorem X23_install_then_activate (w : World) :
  NoDup (fst <$> caches w) ->
  let w1 := snd (on_install w) in
  let w2 := snd (on_activate w1) in
  exists c,
    caches w2 = [(CACHE_NAME, c)]
    /\ cache_named CACHE_NAME (caches w1) = Some c
    /\ ((forall u, u ∈ URLS_TO_CACHE ->
           exists r, network w u = Some r /\ acceptable r = true) ->
        forall u, u ∈ URLS_TO_CACHE -> cache_match u c = network w u).
Proof.
  intros Hnd. cbn zeta. rewrite WorkerFacts.on_activate_caches.
  cbn [snd caches clients_claim set_caches].
  pose proof (WorkerFacts.on_install_names_NoDup w Hnd) as Hnd1.
  pose proof (Hspec := WorkerFacts.on_install_spec w). cbn zeta in Hspec.
  assert (Hsome : is_Some (cache_named CACHE_NAME (caches (snd (on_install w))))).
  { apply WorkerFacts.has_cache_named. rewrite Hspec.
    destruct (mapM _ URLS_TO_CACHE); cbn [snd caches skipWaiting set_caches add_console];
      rewrite ?LifecycleFacts.has_cache_update; apply LifecycleFacts.has_cache_opened. }
  destruct Hsome as [c Hc]. exists c.
  split; [now apply LifecycleFacts.filter_name_single|]. split; [exact Hc|].
  intros Hall u Hu. revert Hc. rewrite Hspec.
  destruct (mapM (fetch_for_cache (network w)) URLS_TO_CACHE) as [es|] eqn:Hes.
  - cbn [snd caches skipWaiting set_caches]. rewrite WorkerFacts.cache_named_update.
    destruct (cache_named CACHE_NAME _) as [c0|]; [|discriminate]. intros [= <-].
    destruct (WorkerFacts.fetched_entries _ _ _ Hes) as [Hfst Hentries].
    destruct (Hentries u Hu) as (r & -> & Hin).
    apply WorkerFacts.cache_match_put_all; [|exact Hin].
    rewrite Hfst. apply WorkerFacts.manifest_NoDup.
  - exfalso. apply mapM_None_1, Exists_exists in Hes.
    destruct Hes as (u' & Hu' & Hnone'). destruct (Hall u' Hu') as (r & Hr & Hacc).
    unfold fetch_for_cache in Hnone'. rewrite Hr, Hacc in Hnone'. discriminate.
Qed.

Lemma X23_install_then_activate_witness :
  exists c,
    caches (snd (on_activate (snd (on_install (world_of three_versions all_up)))))
    = [(CACHE_NAME, c)]
    /\ cache_named CACHE_NAME (caches (snd (on_install (world_of three_versions all_up))))
       = Some c
    /\ ((forall u, u ∈ URLS_TO_CACHE ->
           exists r, all_up u = Some r /\ acceptable r = true) ->
        forall u, u ∈ URLS_TO_CACHE -> cache_match u c = all_up u).
Proof.
  apply (X23_install_then_activate (world_of three_versions all_up)).
  apply (bool_decide_unpack _). vm_compute. exact I.
Defined.

(** X24. Activating twice is activating once; an activation does not
    touch what the cache of the current version holds; and after it a
    lookup in the cache storage finds exactly what that cache holds, so a
    document that only an older cache held is no longer served. *)
Theorem X24_activate_again (w : World) :
  NoDup (fst <$> caches w) ->
  let w1 := snd (on_activate w) in
  caches (snd (on_activate w1)) = caches w1
  /\ cache_named CACHE_NAME (caches w1) = cache_named CACHE_NAME (caches w)
  /\ forall u, storage_match u (caches w1)
               = cache_named CACHE_NAME (caches w) ≫= cache_match u.
Proof.
  intros Hnd. cbn zeta. rewrite !WorkerFacts.on_activate_caches.
  cbn [snd caches clients_claim set_caches]. split; [|split].
  - rewrite list_filter_filter. apply WorkerFacts.filter_ext_elem. intros e _. tauto.
  - apply LifecycleFacts.cache_named_filter.
  - intros u. destruct (cache_named CACHE_NAME (caches w)) as [c|] eqn:Hc.
    + rewrite (LifecycleFacts.filter_name_single _ _ c Hnd Hc).
      cbn [storage_match mbind option_bind]. now destruct (cache_match u c).
    + rewrite WorkerFacts.filter_none; [reflexivity|].
      intros e He Hn.
      assert (is_Some (cache_named CACHE_NAME (caches w))) as [? ?]; [|congruence].
      apply WorkerFacts.has_cache_named. apply bool_decide_eq_true.
      rewrite <- Hn. now apply list_elem_of_fmap_2.
Qed.

Lemma X24_activate_again_witness :
  let w1 := snd (on_activate (world_of three_versions offline)) in
  caches (snd (on_activate w1)) = caches w1
  /\ cache_named CACHE_NAME (caches w1)
     = cache_named CACHE_NAME (caches (world_of three_versions offline))
  /\ forall u, storage_match u (caches w1)
               = cache_named CACHE_NAME (caches (world_of three_versions offline))
                 ≫= cache_match u.
Proof.
  apply (X24_activate_again (world_of three_versions offline)).
  apply (bool_decide_unpack _). vm_compute. exact I.
Defined.

(** X25. Installing again while the network answers as before leaves the
    caches as the first install left them. *)
Theorem X25_install_again (w : World) :
  let w1 := snd (on_install w) in
  caches (snd (on_install w1)) = caches w1.
Proof.
  cbn zeta. rewrite (WorkerFacts.on_install_spec (snd (on_install w))).
  rewrite (WorkerFacts.on_install_spec w). cbn zeta.
  destruct (mapM (fetch_for_cache (network w)) URLS_TO_CACHE) as [es|] eqn:Hes;
    cbn [snd caches network skipWaiting set_caches add_console add_requested];
    rewrite Hes; cbn [snd caches network skipWaiting set_caches add_console add_requested].
  - rewrite LifecycleFacts.has_cache_update, LifecycleFacts.has_cache_opened.
    apply LifecycleFacts.update_cache_twice. intros c.
    apply LifecycleFacts.put_all_twice.
    destruct (WorkerFacts.fetched_entries _ _ _ Hes) as [-> _].
    apply WorkerFacts.manifest_NoDup.
  - now rewrite LifecycleFacts.has_cache_opened.
Qed.

(** X26. The names of the caches stay pairwise distinct through every
    event the worker handles. *)
Theorem X26_cache_names_stay_distinct (w : World) :
  NoDup (fst <$> caches w) ->
  NoDup (fst <$> caches (snd (on_install w)))
  /\ NoDup (fst <$> caches (snd (on_activate w)))
  /\ forall request, NoDup (fst <$> caches (snd (on_fetch request w))).
Proof.
  intros Hnd. split; [now apply WorkerFacts.on_install_names_NoDup|].
  split; [now apply WorkerFacts.on_activate_names_NoDup|].
  intros request. unfold on_fetch, respondWith.
  destruct (decide (mode request = navigate)) as [Hm|Hm].
  - rewrite (WorkerFacts.fetch_listener_navigate request w Hm).
    destruct (network w (url request)); [exact Hnd|].
    now destruct (storage_match _ (caches w)).
  - rewrite (WorkerFacts.fetch_listener_other request w Hm).
    destruct (storage_match _ (caches w)); [exact Hnd|].
    now destruct (network w (url request)).
Qed.

Lemma X26_cache_names_stay_distinct_witness :
  NoDup (fst <$> caches (snd (on_install (world_of three_versions cdn_down))))
  /\ NoDup (fst <$> caches (snd (on_activate (world_of three_versions cdn_down))))
  /\ forall request,
       NoDup (fst <$> caches (snd (on_fetch request (world_of three_versions cdn_down)))).
Proof.
  apply (X26_cache_names_stay_distinct (world_of three_versions cdn_down)).
  apply (bool_decide_unpack _). vm_compute. exact I.
Defined.
